(** * UV mirror: the split-view camera component

    A shallow embedding of [src/components/UVCamera.tsx] (the component as it
    stands) and of its earlier revision (the second source file, embedded in
    [Module Earlier]).

    - JavaScript numbers are IEEE 754 binary64 values: [JS.number] is the
      Standard Library's executable [spec_float] at precision 53.
    - A [Uint8ClampedArray] is a [list Z] of bytes; stores clamp.
    - The 2D context is a record holding the bitmap, the drawing state, the
      save/restore stack, the current path and the log of the calls made on
      it.  What a paint call deposits on each pixel is left to a
      [Rasteriser] parameter; pixel reads and writes ([getImageData],
      [putImageData]) are exact.
    - The component's refs and React state are a record; user actions and
      browser callbacks are the events of a step relation. *)

From Stdlib Require Import ZArith Lia Bool ZifyNat.
From Stdlib Require Import Floats.SpecFloat.
From stdpp Require Import base list strings gmap pretty.
From Equations Require Import Equations.

Local Open Scope nat_scope.

(* ===================================================================== *)
(** * JavaScript numbers *)
(* ===================================================================== *)

Module JS.

Definition number : Type := spec_float.

Definition prec : Z := 53.
Definition emax : Z := 1024.

(** An integer-valued number (a literal, or an [unsigned long] attribute
    such as [videoWidth]). *)
Definition of_Z (z : Z) : number := binary_normalize prec emax z 0 false.
Definition of_nat (n : nat) : number := of_Z (Z.of_nat n).

Definition add : number -> number -> number := SFadd prec emax.
Definition sub : number -> number -> number := SFsub prec emax.
Definition mul : number -> number -> number := SFmul prec emax.
Definition div : number -> number -> number := SFdiv prec emax.

(** [x > y] and [x >= y]. *)
Definition gt (x y : number) : bool := SFltb y x.
Definition ge (x y : number) : bool := SFleb y x.

(** Decimal literals of the source: the double nearest to the decimal,
    which is what the correctly rounded quotient of the two integers is. *)
Definition lit_0_18 : number := div (of_Z 18) (of_Z 100).
Definition lit_0_20 : number := div (of_Z 20) (of_Z 100).
Definition lit_0_08 : number := div (of_Z 8) (of_Z 100).

(** A number is well formed when its mantissa and exponent are the
    canonical ones of binary64. *)
Definition valid (x : number) : bool := valid_binary prec emax x.

End JS.

Declare Scope js_scope.
Delimit Scope js_scope with js.
Infix "+" := JS.add : js_scope.
Infix "-" := JS.sub : js_scope.
Infix "*" := JS.mul : js_scope.
Infix "/" := JS.div : js_scope.
Infix ">?" := JS.gt (at level 70) : js_scope.
Infix ">=?" := JS.ge (at level 70) : js_scope.

(* ===================================================================== *)
(** * Pixel arrays and the inversion filter *)
(* ===================================================================== *)

(** A store into a [Uint8ClampedArray] clamps to 0..255. *)
Definition clamp8 (z : Z) : Z := Z.max 0 (Z.min 255 z).

(** The bytes of a [Uint8ClampedArray]. *)
Definition is_byte (v : Z) : Prop := (0 <= v <= 255)%Z.
Definition bytes_ok (data : list Z) : Prop := Forall is_byte data.

(** [data[i] = 255 - data[i]].  Out of range the read is [undefined] and the
    store is dropped: the array is left as it is. *)
Definition invertAt (data : list Z) (i : nat) : list Z :=
  match data !! i with
  | Some v => <[i := clamp8 (255 - v)]> data
  | None => data
  end.

(** The body of the loop: R, G and B of the pixel that starts at [i]. *)
Definition invertPixel (data : list Z) (i : nat) : list Z :=
  invertAt (invertAt (invertAt data i) (i + 1)) (i + 2).

Lemma length_invertAt data i : length (invertAt data i) = length data.
Proof. unfold invertAt. destruct (data !! i); [apply length_insert | reflexivity]. Qed.

Lemma length_invertPixel data i : length (invertPixel data i) = length data.
Proof. unfold invertPixel. rewrite !length_invertAt. reflexivity. Qed.

(** [for (let i = ...; i < data.length; i += 4) { ... }] from index [i] on. *)
Equations? invertLoop (data : list Z) (i : nat) : list Z
  by wf (length data - i) lt :=
  invertLoop data i with lt_dec i (length data) => {
    | left _ => invertLoop (invertPixel data i) (i + 4);
    | right _ => data }.
Proof. rewrite length_invertPixel. lia. Qed.

(** STEP 4 of [processFrame], on the array it is given. *)
Definition invert (data : list Z) : list Z := invertLoop data 0.

(* ===================================================================== *)
(** * The 2D canvas *)
(* ===================================================================== *)

Record HTMLVideoElement := {
  readyState : nat;
  videoWidth : nat;
  videoHeight : nat;
  videoFrame : list Z                (* the decoded current frame *)
}.

Definition HAVE_ENOUGH_DATA : nat := 4.

Record HTMLImageElement := {
  naturalWidth : nat;
  naturalHeight : nat;
  imagePixels : list Z
}.

Inductive FacingMode := user | environment.

Inductive Source :=
| SrcVideo (v : HTMLVideoElement)
| SrcImage (img : HTMLImageElement).

Record Rect := { rx : JS.number; ry : JS.number; rw : JS.number; rh : JS.number }.

Inductive TransformOp :=
| Translate (tx ty : JS.number)
| Scale (sx sy : JS.number).

(** The part of the context that [save] pushes and [restore] pops, as far as
    the component touches it.  The transform is the sequence of operations
    applied since the identity; the clip is the list of clipping paths whose
    intersection is the region (none: the whole canvas); a path is kept as
    the rectangles added to it, each with the transform it was added under. *)
Record DrawState := {
  transform : list TransformOp;
  clipRegion : list (list (list TransformOp * Rect));
  fillStyle : string;
  shadowColor : string;
  shadowBlur : JS.number;
  shadowOffsetX : JS.number;
  shadowOffsetY : JS.number
}.

Definition initialDrawState : DrawState := {|
  transform := [];
  clipRegion := [];
  fillStyle := "#000000";
  shadowColor := "rgba(0, 0, 0, 0)";
  shadowBlur := JS.of_Z 0;
  shadowOffsetX := JS.of_Z 0;
  shadowOffsetY := JS.of_Z 0
|}.

Inductive PaintCmd :=
| FillRect (x y w h : JS.number)
| DrawImage (src : Source) (dx dy dw dh : JS.number)
| DrawImage9 (src : Source) (sx sy sw sh dx dy dw dh : JS.number).

(** The calls made on the canvas and its context, in order.  A paint call is
    logged with the drawing state it ran under. *)
Inductive Call :=
| CSetWidth (w : nat)
| CSetHeight (h : nat)
| CSetFillStyle (s : string)
| CSave
| CRestore
| CBeginPath
| CRect (r : Rect)
| CClip
| CTranslate (tx ty : JS.number)
| CScale (sx sy : JS.number)
| CPaint (cmd : PaintCmd) (st : DrawState)
| CGetImageData (sx sy sw sh : nat)
| CPutImageData (w h dx dy : nat)
| CSetShadowColor (s : string)
| CSetShadowBlur (n : JS.number)
| CSetShadowOffsetX (n : JS.number)
| CSetShadowOffsetY (n : JS.number).

Record Pixel := { red : Z; green : Z; blue : Z; alpha : Z }.

(** What a paint call leaves on the pixel at column [x], row [y] of a canvas
    of the given size, from the pixel that was there: the browser's
    rasteriser (sampling, clipping, compositing, shadows). *)
Definition Rasteriser : Type :=
  PaintCmd -> DrawState -> nat -> nat -> nat -> nat -> Pixel -> Pixel.

Record ImageData := {
  id_width : nat;
  id_height : nat;
  id_data : list Z
}.

Record Ctx := {
  width : nat;
  height : nat;
  bitmap : list Z;                   (* RGBA, row-major, 4 * width * height *)
  state : DrawState;
  stack : list DrawState;
  path : list (list TransformOp * Rect);
  calls : list Call
}.

Definition log (c : Ctx) (k : Call) : Ctx :=
  {| width := width c; height := height c; bitmap := bitmap c; state := state c;
     stack := stack c; path := path c; calls := calls c ++ [k] |}.

Definition withState (c : Ctx) (st : DrawState) : Ctx :=
  {| width := width c; height := height c; bitmap := bitmap c; state := st;
     stack := stack c; path := path c; calls := calls c |}.

Definition withBitmap (c : Ctx) (bm : list Z) : Ctx :=
  {| width := width c; height := height c; bitmap := bm; state := state c;
     stack := stack c; path := path c; calls := calls c |}.

(** Assigning [canvas.width] or [canvas.height] clears the bitmap to
    transparent black and resets the context, whatever the value. *)
Definition resized (c : Ctx) (w h : nat) : Ctx :=
  {| width := w; height := h; bitmap := replicate (4 * w * h) 0%Z;
     state := initialDrawState; stack := []; path := []; calls := calls c |}.

Definition setWidth (w : nat) (c : Ctx) : Ctx :=
  log (resized c w (height c)) (CSetWidth w).

Definition setHeight (h : nat) (c : Ctx) : Ctx :=
  log (resized c (width c) h) (CSetHeight h).

Definition setFillStyle (s : string) (c : Ctx) : Ctx :=
  let st := state c in
  log (withState c {| transform := transform st; clipRegion := clipRegion st;
                      fillStyle := s; shadowColor := shadowColor st;
                      shadowBlur := shadowBlur st;
                      shadowOffsetX := shadowOffsetX st;
                      shadowOffsetY := shadowOffsetY st |}) (CSetFillStyle s).

Definition setShadowColor (s : string) (c : Ctx) : Ctx :=
  let st := state c in
  log (withState c {| transform := transform st; clipRegion := clipRegion st;
                      fillStyle := fillStyle st; shadowColor := s;
                      shadowBlur := shadowBlur st;
                      shadowOffsetX := shadowOffsetX st;
                      shadowOffsetY := shadowOffsetY st |}) (CSetShadowColor s).

Definition setShadowBlur (n : JS.number) (c : Ctx) : Ctx :=
  let st := state c in
  log (withState c {| transform := transform st; clipRegion := clipRegion st;
                      fillStyle := fillStyle st; shadowColor := shadowColor st;
                      shadowBlur := n;
                      shadowOffsetX := shadowOffsetX st;
                      shadowOffsetY := shadowOffsetY st |}) (CSetShadowBlur n).

Definition setShadowOffsetX (n : JS.number) (c : Ctx) : Ctx :=
  let st := state c in
  log (withState c {| transform := transform st; clipRegion := clipRegion st;
                      fillStyle := fillStyle st; shadowColor := shadowColor st;
                      shadowBlur := shadowBlur st;
                      shadowOffsetX := n;
                      shadowOffsetY := shadowOffsetY st |}) (CSetShadowOffsetX n).

Definition setShadowOffsetY (n : JS.number) (c : Ctx) : Ctx :=
  let st := state c in
  log (withState c {| transform := transform st; clipRegion := clipRegion st;
                      fillStyle := fillStyle st; shadowColor := shadowColor st;
                      shadowBlur := shadowBlur st;
                      shadowOffsetX := shadowOffsetX st;
                      shadowOffsetY := n |}) (CSetShadowOffsetY n).

Definition save (c : Ctx) : Ctx :=
  log {| width := width c; height := height c; bitmap := bitmap c;
         state := state c; stack := state c :: stack c; path := path c;
         calls := calls c |} CSave.

(** [restore] with nothing saved does nothing. *)
Definition restore (c : Ctx) : Ctx :=
  log match stack c with
      | st :: rest =>
          {| width := width c; height := height c; bitmap := bitmap c;
             state := st; stack := rest; path := path c; calls := calls c |}
      | [] => c
      end CRestore.

Definition beginPath (c : Ctx) : Ctx :=
  log {| width := width c; height := height c; bitmap := bitmap c;
         state := state c; stack := stack c; path := []; calls := calls c |}
      CBeginPath.

Definition rect (x y w h : JS.number) (c : Ctx) : Ctx :=
  let r := {| rx := x; ry := y; rw := w; rh := h |} in
  log {| width := width c; height := height c; bitmap := bitmap c;
         state := state c; stack := stack c;
         path := path c ++ [(transform (state c), r)]; calls := calls c |}
      (CRect r).

Definition clip (c : Ctx) : Ctx :=
  let st := state c in
  log (withState c {| transform := transform st;
                      clipRegion := clipRegion st ++ [path c];
                      fillStyle := fillStyle st; shadowColor := shadowColor st;
                      shadowBlur := shadowBlur st;
                      shadowOffsetX := shadowOffsetX st;
                      shadowOffsetY := shadowOffsetY st |}) CClip.

Definition applyTransform (op : TransformOp) (c : Ctx) : Ctx :=
  let st := state c in
  withState c {| transform := transform st ++ [op];
                 clipRegion := clipRegion st;
                 fillStyle := fillStyle st; shadowColor := shadowColor st;
                 shadowBlur := shadowBlur st;
                 shadowOffsetX := shadowOffsetX st;
                 shadowOffsetY := shadowOffsetY st |}.

Definition translate (tx ty : JS.number) (c : Ctx) : Ctx :=
  log (applyTransform (Translate tx ty) c) (CTranslate tx ty).

Definition scale (sx sy : JS.number) (c : Ctx) : Ctx :=
  log (applyTransform (Scale sx sy) c) (CScale sx sy).

(** The pixel whose first byte is at index [4 * p]. *)
Definition pixelAt (bm : list Z) (p : nat) : Pixel :=
  {| red := default 0%Z (bm !! (4 * p));
     green := default 0%Z (bm !! (4 * p + 1));
     blue := default 0%Z (bm !! (4 * p + 2));
     alpha := default 0%Z (bm !! (4 * p + 3)) |}.

Definition channel (ch : nat) (p : Pixel) : Z :=
  match ch with
  | 0 => red p
  | 1 => green p
  | 2 => blue p
  | _ => alpha p
  end.

(** A paint call: every pixel of the bitmap becomes what the rasteriser
    makes of it; the backing store holds bytes. *)
Definition paint (R : Rasteriser) (cmd : PaintCmd) (c : Ctx) : Ctx :=
  let W := width c in
  let H := height c in
  let bm := bitmap c in
  log (withBitmap c
         (imap (fun k _ =>
                  clamp8 (channel (k mod 4)
                            (R cmd (state c) W H ((k / 4) mod W) ((k / 4) / W)
                               (pixelAt bm (k / 4))))) bm))
      (CPaint cmd (state c)).

Definition fillRect (R : Rasteriser) (x y w h : JS.number) : Ctx -> Ctx :=
  paint R (FillRect x y w h).

Definition drawImage (R : Rasteriser) (src : Source) (dx dy dw dh : JS.number)
  : Ctx -> Ctx :=
  paint R (DrawImage src dx dy dw dh).

Definition drawImage9 (R : Rasteriser) (src : Source)
  (sx sy sw sh dx dy dw dh : JS.number) : Ctx -> Ctx :=
  paint R (DrawImage9 src sx sy sw sh dx dy dw dh).

(** Channel [ch] of the pixel at column [x], row [y]; transparent black
    outside the canvas. *)
Definition byteAt (c : Ctx) (x y ch : nat) : Z :=
  if decide (x < width c /\ y < height c)
  then default 0%Z (bitmap c !! (4 * (y * width c + x) + ch))
  else 0%Z.

(** [getImageData(sx, sy, sw, sh)]: throws ([None]) on an empty rectangle. *)
Definition getImageData (sx sy sw sh : nat) (c : Ctx) : option (ImageData * Ctx) :=
  if decide (sw = 0 \/ sh = 0) then None
  else Some ({| id_width := sw; id_height := sh;
                id_data := map (fun k => byteAt c (sx + (k / 4) mod sw)
                                              (sy + (k / 4) / sw) (k mod 4))
                               (seq 0 (4 * sw * sh)) |},
             log c (CGetImageData sx sy sw sh)).

(** [putImageData(img, dx, dy)]: the pixels of [img] replace those of the
    canvas under it, and nothing else changes. *)
Definition putImageData (img : ImageData) (dx dy : nat) (c : Ctx) : Ctx :=
  let W := width c in
  log (withBitmap c
         (imap (fun k old =>
                  let x := (k / 4) mod W in
                  let y := (k / 4) / W in
                  if decide (dx <= x < dx + id_width img /\
                             dy <= y < dy + id_height img)
                  then default old
                         (id_data img !! (4 * ((y - dy) * id_width img + (x - dx))
                                          + k mod 4))
                  else old) (bitmap c)))
      (CPutImageData (id_width img) (id_height img) dx dy).

(* ===================================================================== *)
(** * The frame compositor: [processFrame] *)
(* ===================================================================== *)

Definition STORY_WIDTH : nat := 1080.
Definition STORY_HEIGHT : nat := 1920.

(** [const halfHeight = STORY_HEIGHT / 2], as the number the arithmetic uses
    and as the row count the pixel calls receive. *)
Definition halfHeightN : JS.number := (JS.of_nat STORY_HEIGHT / JS.of_Z 2)%js.
Definition halfHeight : nat := STORY_HEIGHT / 2.

Record DrawRect := {
  drawX : JS.number;
  drawY : JS.number;
  drawWidth : JS.number;
  drawHeight : JS.number
}.

Definition videoAspect (vw vh : nat) : JS.number := (JS.of_nat vw / JS.of_nat vh)%js.
Definition targetAspect : JS.number := (JS.of_nat STORY_WIDTH / halfHeightN)%js.

(** "Calculate how to fit the video into half height while maintaining
    aspect ratio". *)
Definition fitRect (vw vh : nat) : DrawRect :=
  if (videoAspect vw vh >? targetAspect)%js then
    (* Video is wider - fit by height, crop sides *)
    let dh := halfHeightN in
    let dw := (halfHeightN * videoAspect vw vh)%js in
    {| drawX := ((JS.of_nat STORY_WIDTH - dw) / JS.of_Z 2)%js;
       drawY := JS.of_Z 0;
       drawWidth := dw;
       drawHeight := dh |}
  else
    (* Video is taller - fit by width, crop top/bottom *)
    let dw := JS.of_nat STORY_WIDTH in
    let dh := (JS.of_nat STORY_WIDTH / videoAspect vw vh)%js in
    {| drawX := JS.of_Z 0;
       drawY := ((halfHeightN - dh) / JS.of_Z 2)%js;
       drawWidth := dw;
       drawHeight := dh |}.

(** [if (facingMode === 'user') { ctx.translate(w, 0); ctx.scale(-1, 1); }] *)
Definition mirror (facingMode : FacingMode) (w : JS.number) (c : Ctx) : Ctx :=
  match facingMode with
  | user => scale (JS.of_Z (-1)) (JS.of_Z 1) (translate w (JS.of_Z 0) c)
  | environment => c
  end.

(** From the sizing of the canvas to the end of STEP 1. *)
Definition drawTopHalf (R : Rasteriser) (facingMode : FacingMode)
  (video : HTMLVideoElement) (c : Ctx) : Ctx :=
  let r := fitRect (videoWidth video) (videoHeight video) in
  let c := setWidth STORY_WIDTH c in
  let c := setHeight STORY_HEIGHT c in
  let c := setFillStyle "#000000" c in
  let c := fillRect R (JS.of_Z 0) (JS.of_Z 0)
             (JS.of_nat STORY_WIDTH) (JS.of_nat STORY_HEIGHT) c in
  let c := save c in
  let c := beginPath c in
  let c := rect (JS.of_Z 0) (JS.of_Z 0) (JS.of_nat STORY_WIDTH) halfHeightN c in
  let c := clip c in
  let c := mirror facingMode (JS.of_nat STORY_WIDTH) c in
  let c := drawImage R (SrcVideo video)
             (drawX r) (drawY r) (drawWidth r) (drawHeight r) c in
  restore c.

(** STEP 2 to STEP 4, on a canvas [w] pixels wide whose top half is [half]
    rows: read the top half, write it below, read the top half again,
    invert it and write it back. *)
Definition copyAndInvert (w half : nat) (c : Ctx) : option Ctx :=
  '(topHalfPixels, c) ← getImageData 0 0 w half c;
  let c := putImageData topHalfPixels 0 half c in
  '(topImageData, c) ← getImageData 0 0 w half c;
  let data := invert (id_data topImageData) in
  Some (putImageData {| id_width := id_width topImageData;
                        id_height := id_height topImageData;
                        id_data := data |} 0 0 c).

Record OverlayRect := {
  productX : JS.number;
  productY : JS.number;
  productWidth : JS.number;
  productHeight : JS.number
}.

Definition aspectRatio (img : HTMLImageElement) : JS.number :=
  (JS.of_nat (naturalWidth img) / JS.of_nat (naturalHeight img))%js.

Definition overlayRect (img : HTMLImageElement) : OverlayRect :=
  (* Product size: 18% of story height *)
  let ph := (JS.of_nat STORY_HEIGHT * JS.lit_0_18)%js in
  let pw := (ph * aspectRatio img)%js in
  (* Position: center-left (18% offset from center), vertically on split line *)
  {| productX := ((JS.of_nat STORY_WIDTH - pw) / JS.of_Z 2
                  - JS.of_nat STORY_WIDTH * JS.lit_0_18)%js;
     productY := (halfHeightN - ph / JS.of_Z 2)%js;
     productWidth := pw;
     productHeight := ph |}.

(** "Draw the product image (center-left, on the split line)". *)
Definition drawOverlay (R : Rasteriser) (productImage : option HTMLImageElement)
  (c : Ctx) : Ctx :=
  match productImage with
  | None => c
  | Some img =>
      let o := overlayRect img in
      let c := setShadowColor "rgba(0, 0, 0, 0.5)" c in
      let c := setShadowBlur (JS.of_Z 20) c in
      let c := setShadowOffsetX (JS.of_Z 4) c in
      let c := setShadowOffsetY (JS.of_Z 4) c in
      let c := drawImage R (SrcImage img)
                 (productX o) (productY o) (productWidth o) (productHeight o) c in
      let c := setShadowColor "transparent" c in
      let c := setShadowBlur (JS.of_Z 0) c in
      let c := setShadowOffsetX (JS.of_Z 0) c in
      setShadowOffsetY (JS.of_Z 0) c
  end.

(** One run of [processFrame] on the context; [None] is an exception.  The
    frame is composited only when the video has enough data. *)
Definition processFrame (R : Rasteriser) (facingMode : FacingMode)
  (video : HTMLVideoElement) (productImage : option HTMLImageElement)
  (c : Ctx) : option Ctx :=
  if decide (readyState video = HAVE_ENOUGH_DATA) then
    c ← copyAndInvert STORY_WIDTH halfHeight (drawTopHalf R facingMode video c);
    Some (drawOverlay R productImage c)
  else Some c.

(* ===================================================================== *)
(** * The earlier revision of the compositor *)
(* ===================================================================== *)

Module Earlier.

(** [const halfHeight = Math.floor(vh / 2)]. *)
Definition halfHeight (vh : nat) : nat := vh / 2.

Definition scaledWidth (vw vh : nat) : JS.number :=
  (JS.of_nat (halfHeight vh) * videoAspect vw vh)%js.

Definition offsetX (vw vh : nat) : JS.number :=
  ((JS.of_nat vw - scaledWidth vw vh) / JS.of_Z 2)%js.

(** The canvas takes the size of the video; STEP 1 draws the whole video
    scaled into the top half.  No clip is set. *)
Definition drawTopHalf (R : Rasteriser) (facingMode : FacingMode)
  (video : HTMLVideoElement) (c : Ctx) : Ctx :=
  let vw := videoWidth video in
  let vh := videoHeight video in
  let c := setWidth vw c in
  let c := setHeight vh c in
  let c := save c in
  let c := mirror facingMode (JS.of_nat vw) c in
  let c := drawImage9 R (SrcVideo video)
             (JS.of_Z 0) (JS.of_Z 0) (JS.of_nat vw) (JS.of_nat vh)
             (offsetX vw vh) (JS.of_Z 0) (scaledWidth vw vh)
             (JS.of_nat (halfHeight vh)) c in
  restore c.

Definition overlayRect (vw vh : nat) (img : HTMLImageElement) : OverlayRect :=
  let ph := (JS.of_nat vh * JS.lit_0_20)%js in
  let pw := (ph * aspectRatio img)%js in
  {| productX := ((JS.of_nat vw - pw) / JS.of_Z 2
                  - JS.of_nat vw * JS.lit_0_08)%js;
     productY := (JS.of_nat (halfHeight vh) - ph / JS.of_Z 2)%js;
     productWidth := pw;
     productHeight := ph |}.

Definition drawOverlay (R : Rasteriser) (vw vh : nat)
  (productImage : option HTMLImageElement) (c : Ctx) : Ctx :=
  match productImage with
  | None => c
  | Some img =>
      let o := overlayRect vw vh img in
      let c := setShadowColor "rgba(0, 0, 0, 0.6)" c in
      let c := setShadowBlur (JS.of_Z 25) c in
      let c := setShadowOffsetX (JS.of_Z 5) c in
      let c := setShadowOffsetY (JS.of_Z 5) c in
      let c := drawImage R (SrcImage img)
                 (productX o) (productY o) (productWidth o) (productHeight o) c in
      let c := setShadowColor "transparent" c in
      setShadowBlur (JS.of_Z 0) c
  end.

Definition processFrame (R : Rasteriser) (facingMode : FacingMode)
  (video : HTMLVideoElement) (productImage : option HTMLImageElement)
  (c : Ctx) : option Ctx :=
  if decide (readyState video = HAVE_ENOUGH_DATA) then
    let vw := videoWidth video in
    let vh := videoHeight video in
    c ← copyAndInvert vw (halfHeight vh) (drawTopHalf R facingMode video c);
    Some (drawOverlay R vw vh productImage c)
  else Some c.

End Earlier.

(* ===================================================================== *)
(** * Media streams, blobs, object URLs and the transcoder *)
(* ===================================================================== *)

Inductive TrackKind := audioTrack | videoTrack.

Inductive TrackSource :=
| Camera
| Microphone
| CanvasCapture (canvas : nat) (frameRate : nat).

Record MediaStreamTrack := {
  kind : TrackKind;
  source : TrackSource;
  trackId : nat
}.

Global Instance TrackKind_eq_dec : EqDecision TrackKind.
Proof. solve_decision. Defined.
Global Instance TrackSource_eq_dec : EqDecision TrackSource.
Proof. solve_decision. Defined.
Global Instance MediaStreamTrack_eq_dec : EqDecision MediaStreamTrack.
Proof. solve_decision. Defined.

(** A [MediaStream] is its track set, in insertion order. *)
Definition MediaStream : Type := list MediaStreamTrack.

(** [canvas.captureStream(frameRate)]: a new stream with one video track fed
    by the canvas. *)
Definition captureStream (canvas frameRate trackId : nat) : MediaStream :=
  [{| kind := videoTrack; source := CanvasCapture canvas frameRate;
      trackId := trackId |}].

Definition getAudioTracks (s : MediaStream) : list MediaStreamTrack :=
  filter (fun t => kind t = audioTrack) s.

(** [stream.addTrack(track)]: nothing happens if the track is already in. *)
Definition addTrack (s : MediaStream) (t : MediaStreamTrack) : MediaStream :=
  if decide (t ∈ s) then s else s ++ [t].

Record Blob := {
  blobType : string;
  blobBytes : list Z
}.

Definition blobSize (b : Blob) : nat := length (blobBytes b).

(** [new Blob(parts, { type })]. *)
Definition newBlob (parts : list Blob) (type : string) : Blob :=
  {| blobType := type; blobBytes := concat (map blobBytes parts) |}.

(** Object URLs: the store maps the number of a [blob:] URL to its blob. *)
Definition createObjectURL (urls : gmap nat Blob) (b : Blob) : nat * gmap nat Blob :=
  let u := fresh (dom urls) in (u, <[u := b]> urls).

Definition revokeObjectURL (urls : gmap nat Blob) (u : nat) : gmap nat Blob :=
  delete u urls.

(** A call settles with a value or throws. *)
Inductive outcome (A : Type) :=
| Ok (a : A)
| Throw (err : string).
Arguments Ok {A} a.
Arguments Throw {A} err.

(** The loaded FFmpeg instance: its in-memory file system. *)
Record FFmpeg := { files : gmap string (list Z) }.

(** What a run of [exec] with the component's arguments makes of the input
    file: the MP4 bytes, or nothing when the run fails (the call itself
    resolves either way, with the exit code). *)
Definition Transcoder : Type := list Z -> option (list Z).

(** Calls on the instance: they change the file system and may throw. *)
Definition FF (A : Type) : Type := FFmpeg -> outcome A * FFmpeg.

Definition ret {A} (a : A) : FF A := fun ff => (Ok a, ff).

Definition bind {A B} (m : FF A) (k : A -> FF B) : FF B :=
  fun ff =>
    match m ff with
    | (Ok a, ff') => k a ff'
    | (Throw e, ff') => (Throw e, ff')
    end.

Notation "'await' m 'as' x ; k" := (bind m (fun x => k))
  (at level 10, x name, m at level 100, k at level 200).
Notation "'await' m ; k" := (bind m (fun _ => k))
  (at level 10, m at level 100, k at level 200).

Definition writeFile (name : string) (data : list Z) : FF unit :=
  fun ff => (Ok tt, {| files := <[name := data]> (files ff) |}).

Definition exec (T : Transcoder) : FF unit :=
  fun ff =>
    match files ff !! "input.webm" with
    | Some input =>
        match T input with
        | Some output => (Ok tt, {| files := <["output.mp4" := output]> (files ff) |})
        | None => (Ok tt, ff)
        end
    | None => (Ok tt, ff)
    end.

Definition readFile (name : string) : FF (list Z) :=
  fun ff =>
    match files ff !! name with
    | Some data => (Ok data, ff)
    | None => (Throw "ErrnoError: FS error", ff)
    end.

Definition deleteFile (name : string) : FF unit :=
  fun ff =>
    match files ff !! name with
    | Some _ => (Ok tt, {| files := delete name (files ff) |})
    | None => (Throw "ErrnoError: FS error", ff)
    end.

(** [convertToMp4] on the loaded instance. *)
Definition transcode (T : Transcoder) (webmBlob : Blob) : FF Blob :=
  let webmData := blobBytes webmBlob in
  await writeFile "input.webm" webmData;
  await exec T;
  await readFile "output.mp4" as mp4Data;
  let mp4Blob := {| blobType := "video/mp4"; blobBytes := mp4Data |} in
  (* Cleanup *)
  await deleteFile "input.webm";
  await deleteFile "output.mp4";
  ret mp4Blob.

(** [convertToMp4]: the MP4 blob or the error thrown, and the instance
    afterwards. *)
Definition convertToMp4 (T : Transcoder) (ffmpegRef : option FFmpeg)
  (webmBlob : Blob) : outcome Blob * option FFmpeg :=
  match ffmpegRef with
  | None => (Throw "FFmpeg not loaded", None)
  | Some ffmpeg =>
      let '(r, ffmpeg') := transcode T webmBlob ffmpeg in (r, Some ffmpeg')
  end.

(* ===================================================================== *)
(** * The component: refs, state, handlers *)
(* ===================================================================== *)

Inductive RecordingState := idle | recording | preview | converting.

Global Instance RecordingState_eq_dec : EqDecision RecordingState.
Proof. solve_decision. Defined.

Inductive RecorderState := inactive | active.

Record MediaRecorder := {
  recorderStream : MediaStream;
  mimeType : string;
  timeslice : nat;
  recorderState : RecorderState;
  stopQueued : bool;                 (* stopped, the [stop] event is to come *)
  timerInterval : bool               (* the interval set on it is running *)
}.

Record File := {
  fileName : string;
  fileType : string;
  fileBlob : Blob
}.

Record ShareData := {
  shareFiles : list File;
  shareTitle : string
}.

(** What the handlers do to the page outside the component. *)
Inductive Effect :=
| ShareCalled (data : ShareData)
| AnchorClicked (href : nat) (download : string)
| ConsoleLog (msg : string)
| ConsoleError (msg : string).

(** The browser as the handlers see it.  [share] is absent where the Web
    Share API is; when present it tells whether the promise resolves. *)
Record Browser := {
  share : option (ShareData -> outcome unit);
  canShare : ShareData -> bool;
  supportsMimeType : string -> bool;
  transcoder : Transcoder;
  now : nat
}.

Record Component := {
  (* refs *)
  combinedCanvasRef : option nat;
  mediaRecorderRef : option MediaRecorder;
  chunksRef : list Blob;
  streamRef : option MediaStream;
  productImageRef : option HTMLImageElement;
  ffmpegRef : option FFmpeg;
  mp4BlobRef : option Blob;
  (* state *)
  recordingState : RecordingState;
  recordedVideoUrl : option nat;
  recordingTime : nat;
  cameraReady : bool;
  facingMode : FacingMode;
  ffmpegLoaded : bool;
  convertProgress : nat;
  (* the page around it *)
  conversionOf : option Blob;        (* [onstop] is awaiting [convertToMp4] *)
  objectURLs : gmap nat Blob;
  effects : list Effect
}.

(** Assignments to one ref or one piece of state. *)

Definition set_combinedCanvasRef (v : option nat) (s : Component) : Component :=
  {| combinedCanvasRef := v; mediaRecorderRef := mediaRecorderRef s;
     chunksRef := chunksRef s; streamRef := streamRef s;
     productImageRef := productImageRef s; ffmpegRef := ffmpegRef s;
     mp4BlobRef := mp4BlobRef s; recordingState := recordingState s;
     recordedVideoUrl := recordedVideoUrl s;
     recordingTime := recordingTime s; cameraReady := cameraReady s;
     facingMode := facingMode s; ffmpegLoaded := ffmpegLoaded s;
     convertProgress := convertProgress s; conversionOf := conversionOf s;
     objectURLs := objectURLs s; effects := effects s |}.

Definition set_mediaRecorderRef (v : option MediaRecorder) (s : Component) : Component :=
  {| combinedCanvasRef := combinedCanvasRef s; mediaRecorderRef := v;
     chunksRef := chunksRef s; streamRef := streamRef s;
     productImageRef := productImageRef s; ffmpegRef := ffmpegRef s;
     mp4BlobRef := mp4BlobRef s; recordingState := recordingState s;
     recordedVideoUrl := recordedVideoUrl s;
     recordingTime := recordingTime s; cameraReady := cameraReady s;
     facingMode := facingMode s; ffmpegLoaded := ffmpegLoaded s;
     convertProgress := convertProgress s; conversionOf := conversionOf s;
     objectURLs := objectURLs s; effects := effects s |}.

Definition set_chunksRef (v : list Blob) (s : Component) : Component :=
  {| combinedCanvasRef := combinedCanvasRef s;
     mediaRecorderRef := mediaRecorderRef s; chunksRef := v;
     streamRef := streamRef s; productImageRef := productImageRef s;
     ffmpegRef := ffmpegRef s; mp4BlobRef := mp4BlobRef s;
     recordingState := recordingState s;
     recordedVideoUrl := recordedVideoUrl s;
     recordingTime := recordingTime s; cameraReady := cameraReady s;
     facingMode := facingMode s; ffmpegLoaded := ffmpegLoaded s;
     convertProgress := convertProgress s; conversionOf := conversionOf s;
     objectURLs := objectURLs s; effects := effects s |}.

Definition set_streamRef (v : option MediaStream) (s : Component) : Component :=
  {| combinedCanvasRef := combinedCanvasRef s;
     mediaRecorderRef := mediaRecorderRef s; chunksRef := chunksRef s;
     streamRef := v; productImageRef := productImageRef s;
     ffmpegRef := ffmpegRef s; mp4BlobRef := mp4BlobRef s;
     recordingState := recordingState s;
     recordedVideoUrl := recordedVideoUrl s;
     recordingTime := recordingTime s; cameraReady := cameraReady s;
     facingMode := facingMode s; ffmpegLoaded := ffmpegLoaded s;
     convertProgress := convertProgress s; conversionOf := conversionOf s;
     objectURLs := objectURLs s; effects := effects s |}.

Definition set_productImageRef (v : option HTMLImageElement) (s : Component) : Component :=
  {| combinedCanvasRef := combinedCanvasRef s;
     mediaRecorderRef := mediaRecorderRef s; chunksRef := chunksRef s;
     streamRef := streamRef s; productImageRef := v;
     ffmpegRef := ffmpegRef s; mp4BlobRef := mp4BlobRef s;
     recordingState := recordingState s;
     recordedVideoUrl := recordedVideoUrl s;
     recordingTime := recordingTime s; cameraReady := cameraReady s;
     facingMode := facingMode s; ffmpegLoaded := ffmpegLoaded s;
     convertProgress := convertProgress s; conversionOf := conversionOf s;
     objectURLs := objectURLs s; effects := effects s |}.

Definition set_ffmpegRef (v : option FFmpeg) (s : Component) : Component :=
  {| combinedCanvasRef := combinedCanvasRef s;
     mediaRecorderRef := mediaRecorderRef s; chunksRef := chunksRef s;
     streamRef := streamRef s; productImageRef := productImageRef s;
     ffmpegRef := v; mp4BlobRef := mp4BlobRef s;
     recordingState := recordingState s;
     recordedVideoUrl := recordedVideoUrl s;
     recordingTime := recordingTime s; cameraReady := cameraReady s;
     facingMode := facingMode s; ffmpegLoaded := ffmpegLoaded s;
     convertProgress := convertProgress s; conversionOf := conversionOf s;
     objectURLs := objectURLs s; effects := effects s |}.

Definition set_mp4BlobRef (v : option Blob) (s : Component) : Component :=
  {| combinedCanvasRef := combinedCanvasRef s;
     mediaRecorderRef := mediaRecorderRef s; chunksRef := chunksRef s;
     streamRef := streamRef s; productImageRef := productImageRef s;
     ffmpegRef := ffmpegRef s; mp4BlobRef := v;
     recordingState := recordingState s;
     recordedVideoUrl := recordedVideoUrl s;
     recordingTime := recordingTime s; cameraReady := cameraReady s;
     facingMode := facingMode s; ffmpegLoaded := ffmpegLoaded s;
     convertProgress := convertProgress s; conversionOf := conversionOf s;
     objectURLs := objectURLs s; effects := effects s |}.

Definition setRecordingState (v : RecordingState) (s : Component) : Component :=
  {| combinedCanvasRef := combinedCanvasRef s;
     mediaRecorderRef := mediaRecorderRef s; chunksRef := chunksRef s;
     streamRef := streamRef s; productImageRef := productImageRef s;
     ffmpegRef := ffmpegRef s; mp4BlobRef := mp4BlobRef s;
     recordingState := v; recordedVideoUrl := recordedVideoUrl s;
     recordingTime := recordingTime s; cameraReady := cameraReady s;
     facingMode := facingMode s; ffmpegLoaded := ffmpegLoaded s;
     convertProgress := convertProgress s; conversionOf := conversionOf s;
     objectURLs := objectURLs s; effects := effects s |}.

Definition setRecordedVideoUrl (v : option nat) (s : Component) : Component :=
  {| combinedCanvasRef := combinedCanvasRef s;
     mediaRecorderRef := mediaRecorderRef s; chunksRef := chunksRef s;
     streamRef := streamRef s; productImageRef := productImageRef s;
     ffmpegRef := ffmpegRef s; mp4BlobRef := mp4BlobRef s;
     recordingState := recordingState s; recordedVideoUrl := v;
     recordingTime := recordingTime s; cameraReady := cameraReady s;
     facingMode := facingMode s; ffmpegLoaded := ffmpegLoaded s;
     convertProgress := convertProgress s; conversionOf := conversionOf s;
     objectURLs := objectURLs s; effects := effects s |}.

Definition setRecordingTime (v : nat) (s : Component) : Component :=
  {| combinedCanvasRef := combinedCanvasRef s;
     mediaRecorderRef := mediaRecorderRef s; chunksRef := chunksRef s;
     streamRef := streamRef s; productImageRef := productImageRef s;
     ffmpegRef := ffmpegRef s; mp4BlobRef := mp4BlobRef s;
     recordingState := recordingState s;
     recordedVideoUrl := recordedVideoUrl s; recordingTime := v;
     cameraReady := cameraReady s; facingMode := facingMode s;
     ffmpegLoaded := ffmpegLoaded s; convertProgress := convertProgress s;
     conversionOf := conversionOf s; objectURLs := objectURLs s;
     effects := effects s |}.

Definition setCameraReady (v : bool) (s : Component) : Component :=
  {| combinedCanvasRef := combinedCanvasRef s;
     mediaRecorderRef := mediaRecorderRef s; chunksRef := chunksRef s;
     streamRef := streamRef s; productImageRef := productImageRef s;
     ffmpegRef := ffmpegRef s; mp4BlobRef := mp4BlobRef s;
     recordingState := recordingState s;
     recordedVideoUrl := recordedVideoUrl s;
     recordingTime := recordingTime s; cameraReady := v;
     facingMode := facingMode s; ffmpegLoaded := ffmpegLoaded s;
     convertProgress := convertProgress s; conversionOf := conversionOf s;
     objectURLs := objectURLs s; effects := effects s |}.

Definition setFacingMode (v : FacingMode) (s : Component) : Component :=
  {| combinedCanvasRef := combinedCanvasRef s;
     mediaRecorderRef := mediaRecorderRef s; chunksRef := chunksRef s;
     streamRef := streamRef s; productImageRef := productImageRef s;
     ffmpegRef := ffmpegRef s; mp4BlobRef := mp4BlobRef s;
     recordingState := recordingState s;
     recordedVideoUrl := recordedVideoUrl s;
     recordingTime := recordingTime s; cameraReady := cameraReady s;
     facingMode := v; ffmpegLoaded := ffmpegLoaded s;
     convertProgress := convertProgress s; conversionOf := conversionOf s;
     objectURLs := objectURLs s; effects := effects s |}.

Definition setFfmpegLoaded (v : bool) (s : Component) : Component :=
  {| combinedCanvasRef := combinedCanvasRef s;
     mediaRecorderRef := mediaRecorderRef s; chunksRef := chunksRef s;
     streamRef := streamRef s; productImageRef := productImageRef s;
     ffmpegRef := ffmpegRef s; mp4BlobRef := mp4BlobRef s;
     recordingState := recordingState s;
     recordedVideoUrl := recordedVideoUrl s;
     recordingTime := recordingTime s; cameraReady := cameraReady s;
     facingMode := facingMode s; ffmpegLoaded := v;
     convertProgress := convertProgress s; conversionOf := conversionOf s;
     objectURLs := objectURLs s; effects := effects s |}.

Definition setConvertProgress (v : nat) (s : Component) : Component :=
  {| combinedCanvasRef := combinedCanvasRef s;
     mediaRecorderRef := mediaRecorderRef s; chunksRef := chunksRef s;
     streamRef := streamRef s; productImageRef := productImageRef s;
     ffmpegRef := ffmpegRef s; mp4BlobRef := mp4BlobRef s;
     recordingState := recordingState s;
     recordedVideoUrl := recordedVideoUrl s;
     recordingTime := recordingTime s; cameraReady := cameraReady s;
     facingMode := facingMode s; ffmpegLoaded := ffmpegLoaded s;
     convertProgress := v; conversionOf := conversionOf s;
     objectURLs := objectURLs s; effects := effects s |}.

Definition set_conversionOf (v : option Blob) (s : Component) : Component :=
  {| combinedCanvasRef := combinedCanvasRef s;
     mediaRecorderRef := mediaRecorderRef s; chunksRef := chunksRef s;
     streamRef := streamRef s; productImageRef := productImageRef s;
     ffmpegRef := ffmpegRef s; mp4BlobRef := mp4BlobRef s;
     recordingState := recordingState s;
     recordedVideoUrl := recordedVideoUrl s;
     recordingTime := recordingTime s; cameraReady := cameraReady s;
     facingMode := facingMode s; ffmpegLoaded := ffmpegLoaded s;
     convertProgress := convertProgress s; conversionOf := v;
     objectURLs := objectURLs s; effects := effects s |}.

Definition set_objectURLs (v : gmap nat Blob) (s : Component) : Component :=
  {| combinedCanvasRef := combinedCanvasRef s;
     mediaRecorderRef := mediaRecorderRef s; chunksRef := chunksRef s;
     streamRef := streamRef s; productImageRef := productImageRef s;
     ffmpegRef := ffmpegRef s; mp4BlobRef := mp4BlobRef s;
     recordingState := recordingState s;
     recordedVideoUrl := recordedVideoUrl s;
     recordingTime := recordingTime s; cameraReady := cameraReady s;
     facingMode := facingMode s; ffmpegLoaded := ffmpegLoaded s;
     convertProgress := convertProgress s; conversionOf := conversionOf s;
     objectURLs := v; effects := effects s |}.

Definition set_effects (v : list Effect) (s : Component) : Component :=
  {| combinedCanvasRef := combinedCanvasRef s;
     mediaRecorderRef := mediaRecorderRef s; chunksRef := chunksRef s;
     streamRef := streamRef s; productImageRef := productImageRef s;
     ffmpegRef := ffmpegRef s; mp4BlobRef := mp4BlobRef s;
     recordingState := recordingState s;
     recordedVideoUrl := recordedVideoUrl s;
     recordingTime := recordingTime s; cameraReady := cameraReady s;
     facingMode := facingMode s; ffmpegLoaded := ffmpegLoaded s;
     convertProgress := convertProgress s; conversionOf := conversionOf s;
     objectURLs := objectURLs s; effects := v |}.


Definition log_effect (e : Effect) (s : Component) : Component :=
  set_effects (effects s ++ [e]) s.

Definition initialComponent : Component :=
  {| combinedCanvasRef := None; mediaRecorderRef := None; chunksRef := [];
     streamRef := None; productImageRef := None; ffmpegRef := None;
     mp4BlobRef := None; recordingState := idle; recordedVideoUrl := None;
     recordingTime := 0; cameraReady := false; facingMode := user;
     ffmpegLoaded := false; convertProgress := 0; conversionOf := None;
     objectURLs := ∅; effects := [] |}.

(** "Capture the combined canvas stream with audio": the stream handed to
    the recorder.  The id of the new video track is one no track of the
    camera stream has. *)
Definition recordedStream (canvas : nat) (stream : MediaStream) : MediaStream :=
  let canvasStream := captureStream canvas 30 (S (max_list (map trackId stream))) in
  let audioTracks := getAudioTracks stream in
  foldl addTrack canvasStream audioTracks.

Definition vp9 : string := "video/webm;codecs=vp9".

(** [startRecording].  Where the recorder cannot be built for the MIME type
    the constructor throws and the handler ends there. *)
Definition startRecording (B : Browser) (s : Component) : Component :=
  match combinedCanvasRef s, streamRef s with
  | Some canvas, Some stream =>
      let s := set_chunksRef [] s in
      let canvasStream := recordedStream canvas stream in
      if supportsMimeType B vp9 then
        let mediaRecorder :=
          {| recorderStream := canvasStream; mimeType := vp9; timeslice := 100;
             recorderState := active; stopQueued := false;
             timerInterval := true |} in
        let s := set_mediaRecorderRef (Some mediaRecorder) s in
        setRecordingState recording s
      else s
  | _, _ => s
  end.

(** [mediaRecorder.ondataavailable]. *)
Definition ondataavailable (data : Blob) (s : Component) : Component :=
  if decide (0 < blobSize data) then set_chunksRef (chunksRef s ++ [data]) s
  else s.

(** [mediaRecorder.onstop] up to its [await]. *)
Definition onstop_begin (s : Component) : Component :=
  let webmBlob := newBlob (chunksRef s) "video/webm" in
  let s := setRecordingState converting s in
  let s := setConvertProgress 0 s in
  set_conversionOf (Some webmBlob) s.

(** What follows both in the [try] and in the [catch]. *)
Definition showPreview (blob : Blob) (s : Component) : Component :=
  let s := set_mp4BlobRef (Some blob) s in
  let '(url, urls) := createObjectURL (objectURLs s) blob in
  let s := set_objectURLs urls s in
  let s := setRecordedVideoUrl (Some url) s in
  setRecordingState preview s.

(** [mediaRecorder.onstop] from the moment [convertToMp4] settles. *)
Definition onstop_settle (B : Browser) (s : Component) : Component :=
  match conversionOf s with
  | None => s
  | Some webmBlob =>
      let s := set_conversionOf None s in
      match convertToMp4 (transcoder B) (ffmpegRef s) webmBlob with
      | (Ok mp4Blob, ffmpeg) =>
          showPreview mp4Blob (set_ffmpegRef ffmpeg s)
      | (Throw error, ffmpeg) =>
          let s := set_ffmpegRef ffmpeg s in
          let s := log_effect (ConsoleError "Error converting to MP4:") s in
          (* Fallback to WebM if conversion fails *)
          showPreview webmBlob s
      end
  end.

(** The whole of [mediaRecorder.onstop], run without interruption. *)
Definition onstop (B : Browser) (s : Component) : Component :=
  onstop_settle B (onstop_begin s).

(** [stopRecording]: [stop()] makes the recorder inactive at once and queues
    its [stop] event. *)
Definition stopRecording (s : Component) : Component :=
  match mediaRecorderRef s with
  | Some r =>
      match recorderState r with
      | active =>
          let r := {| recorderStream := recorderStream r; mimeType := mimeType r;
                      timeslice := timeslice r; recorderState := inactive;
                      stopQueued := true; timerInterval := false |} in
          setRecordingTime 0 (set_mediaRecorderRef (Some r) s)
      | inactive => s
      end
  | None => s
  end.

(** [resetCamera]. *)
Definition resetCamera (s : Component) : Component :=
  let s := match recordedVideoUrl s with
           | Some url => set_objectURLs (revokeObjectURL (objectURLs s) url) s
           | None => s
           end in
  let s := setRecordedVideoUrl None s in
  setRecordingState idle s.

Definition mp4Name (B : Browser) : string :=
  "pixxel-uv-" +:+ pretty (now B) +:+ ".mp4".

(** [downloadVideo]. *)
Definition downloadVideo (B : Browser) (s : Component) : Component :=
  match recordedVideoUrl s, mp4BlobRef s with
  | Some url, Some _ => log_effect (AnchorClicked url (mp4Name B)) s
  | _, _ => s
  end.

Definition shareFile (B : Browser) (blob : Blob) : File :=
  {| fileName := mp4Name B; fileType := "video/mp4"; fileBlob := blob |}.

(** [shareVideo]. *)
Definition shareVideo (B : Browser) (s : Component) : Component :=
  match mp4BlobRef s with
  | None => s
  | Some blob =>
      let file := shareFile B blob in
      match share B with
      | Some navigator_share =>
          if canShare B {| shareFiles := [file]; shareTitle := "" |} then
            let data := {| shareFiles := [file]; shareTitle := "UV Camera Video" |} in
            let s := log_effect (ShareCalled data) s in
            match navigator_share data with
            | Ok _ => s
            | Throw error => log_effect (ConsoleLog "Share cancelled or failed:") s
            end
          else
            (* Fallback to download if share not supported *)
            downloadVideo B s
      | None => downloadVideo B s
      end
  end.

(** [switchCamera]. *)
Definition switchCamera (s : Component) : Component :=
  setFacingMode (match facingMode s with
                 | user => environment
                 | environment => user
                 end) s.

(** [s.padStart(targetLength, padString)]: the pad string repeated, cut to
    what is missing, in front of [s]. *)
Definition padStart (targetLength : nat) (padString : string) (s : string) : string :=
  let fillLen := targetLength - String.length s in
  match padString with
  | EmptyString => s
  | _ =>
      String.string_of_list_ascii
        (take fillLen
           (concat (replicate fillLen (String.list_ascii_of_string padString))))
      +:+ s
  end.

(** [formatTime]: the seconds recorded so far, as shown in the indicator. *)
Definition formatTime (seconds : nat) : string :=
  let mins := seconds / 60 in
  let secs := seconds mod 60 in
  padStart 2 "0" (pretty mins) +:+ ":" +:+ padStart 2 "0" (pretty secs).

(* ===================================================================== *)
(** * What is on screen, and the events *)
(* ===================================================================== *)

Inductive Button :=
| BtnReset | BtnDownload | BtnShare | BtnSwitchCamera | BtnRecord | BtnStop.

(** [recordingState === 'preview' && recordedVideoUrl ? ... : ...]. *)
Definition previewShown (s : Component) : bool :=
  bool_decide (recordingState s = preview) && bool_decide (is_Some (recordedVideoUrl s)).

(** The buttons the JSX renders enabled in a state. *)
Definition clickable (s : Component) (b : Button) : bool :=
  match b with
  | BtnReset | BtnDownload | BtnShare => previewShown s
  | BtnSwitchCamera => negb (previewShown s)
  | BtnRecord =>
      negb (previewShown s) && bool_decide (recordingState s = idle)
      && cameraReady s
  | BtnStop =>
      negb (previewShown s) && negb (bool_decide (recordingState s = idle))
  end.

Definition onClick (B : Browser) (b : Button) (s : Component) : Component :=
  match b with
  | BtnReset => resetCamera s
  | BtnDownload => downloadVideo B s
  | BtnShare => shareVideo B s
  | BtnSwitchCamera => switchCamera s
  | BtnRecord => startRecording B s
  | BtnStop => stopRecording s
  end.

Inductive Event :=
| Click (b : Button)
| DataAvailable (data : Blob)        (* the recorder hands over a chunk *)
| RecorderEnded                      (* the recorder stops of its own *)
| StopEvent                          (* the recorder's [stop] event fires *)
| ConversionSettled                  (* the awaited [convertToMp4] settles *)
| TimerTick (seconds : nat)
| FFmpegReady
| FFmpegProgress (percent : nat)
| ImageLoaded (img : HTMLImageElement)
| CameraStarted (stream : MediaStream)
| LoadedMetadata
| CanvasRef (canvas : option nat).   (* React attaches or clears the ref *)

Definition recorderBusy (s : Component) : bool :=
  match mediaRecorderRef s with
  | Some r => match recorderState r with active => true | inactive => stopQueued r end
  | None => false
  end.

(** One event on the component; [None] when it cannot happen in [s]. *)
Definition step (B : Browser) (e : Event) (s : Component) : option Component :=
  match e with
  | Click b => if clickable s b then Some (onClick B b s) else None
  | DataAvailable data =>
      if recorderBusy s then Some (ondataavailable data s) else None
  | RecorderEnded =>
      match mediaRecorderRef s with
      | Some r =>
          match recorderState r with
          | active =>
              Some (set_mediaRecorderRef
                      (Some {| recorderStream := recorderStream r;
                               mimeType := mimeType r; timeslice := timeslice r;
                               recorderState := inactive; stopQueued := true;
                               timerInterval := timerInterval r |}) s)
          | inactive => None
          end
      | None => None
      end
  | StopEvent =>
      match mediaRecorderRef s with
      | Some r =>
          if stopQueued r then
            Some (onstop_begin
                    (set_mediaRecorderRef
                       (Some {| recorderStream := recorderStream r;
                                mimeType := mimeType r; timeslice := timeslice r;
                                recorderState := recorderState r;
                                stopQueued := false;
                                timerInterval := timerInterval r |}) s))
          else None
      | None => None
      end
  | ConversionSettled =>
      match conversionOf s with
      | Some _ => Some (onstop_settle B s)
      | None => None
      end
  | TimerTick seconds =>
      match mediaRecorderRef s with
      | Some r => if timerInterval r then Some (setRecordingTime seconds s) else None
      | None => None
      end
  | FFmpegReady =>
      Some (setFfmpegLoaded true (set_ffmpegRef (Some {| files := ∅ |}) s))
  | FFmpegProgress percent => Some (setConvertProgress percent s)
  | ImageLoaded img => Some (set_productImageRef (Some img) s)
  | CameraStarted stream => Some (set_streamRef (Some stream) s)
  | LoadedMetadata => Some (setCameraReady true s)
  | CanvasRef canvas => Some (set_combinedCanvasRef canvas s)
  end.

(** The states the component can be in. *)
Inductive reachable (B : Browser) : Component -> Prop :=
| reach_init : reachable B initialComponent
| reach_step s e s' : reachable B s -> step B e s = Some s' -> reachable B s'.

(* ===================================================================== *)
(** * Vocabulary of the statements *)
(* ===================================================================== *)

Definition inv8 (v : Z) : Z := clamp8 (255 - v).

Definition wfCtx (c : Ctx) : Prop := length (bitmap c) = 4 * width c * height c.

Ltac ctx_cbn :=
  cbn [width height bitmap state stack path calls
       log withState withBitmap resized applyTransform
       setWidth setHeight setFillStyle setShadowColor setShadowBlur
       setShadowOffsetX setShadowOffsetY save restore beginPath rect clip
       translate scale mirror paint fillRect drawImage drawImage9 putImageData].

Definition bytesCtx (c : Ctx) : Prop := bytes_ok (bitmap c).

(** The same frame in both halves: the bottom half of [composed] is the top
    half of [drawn] byte for byte, and its top half is that image with the
    colour channels inverted. *)
Definition sameFrameInBothHalves (w half : nat) (drawn composed : Ctx) : Prop :=
  forall x y ch, x < w -> y < half -> ch < 4 ->
    byteAt composed x (half + y) ch = byteAt drawn x y ch /\
    byteAt composed x y ch =
      if decide (ch = 3) then byteAt drawn x y ch
      else (255 - byteAt drawn x y ch)%Z.

Definition mirrorOps (fm : FacingMode) (w : JS.number) : list TransformOp :=
  match fm with
  | user => [Translate w (JS.of_Z 0); Scale (JS.of_Z (-1)) (JS.of_Z 1)]
  | environment => []
  end.

Definition mirrorCalls (fm : FacingMode) (w : JS.number) : list Call :=
  match fm with
  | user => [CTranslate w (JS.of_Z 0); CScale (JS.of_Z (-1)) (JS.of_Z 1)]
  | environment => []
  end.

Definition topHalfRect : Rect :=
  {| rx := JS.of_Z 0; ry := JS.of_Z 0;
     rw := JS.of_nat STORY_WIDTH; rh := halfHeightN |}.

Definition withShadow (st : DrawState) (color : string) (blur ox oy : JS.number)
  : DrawState :=
  {| transform := transform st; clipRegion := clipRegion st;
     fillStyle := fillStyle st; shadowColor := color; shadowBlur := blur;
     shadowOffsetX := ox; shadowOffsetY := oy |}.

(** The state the video is drawn under. *)
Definition videoDrawState (fm : FacingMode) : DrawState :=
  {| transform := mirrorOps fm (JS.of_nat STORY_WIDTH);
     clipRegion := [[([], topHalfRect)]];
     fillStyle := "#000000";
     shadowColor := shadowColor initialDrawState;
     shadowBlur := shadowBlur initialDrawState;
     shadowOffsetX := shadowOffsetX initialDrawState;
     shadowOffsetY := shadowOffsetY initialDrawState |}.

Definition videoDraw (video : HTMLVideoElement) : PaintCmd :=
  let r := fitRect (videoWidth video) (videoHeight video) in
  DrawImage (SrcVideo video) (drawX r) (drawY r) (drawWidth r) (drawHeight r).

Definition overlayDraw (img : HTMLImageElement) : PaintCmd :=
  let o := overlayRect img in
  DrawImage (SrcImage img) (productX o) (productY o) (productWidth o) (productHeight o).

Definition overlayCalls (productImage : option HTMLImageElement) : list Call :=
  match productImage with
  | None => []
  | Some img =>
      [CSetShadowColor "rgba(0, 0, 0, 0.5)"; CSetShadowBlur (JS.of_Z 20);
       CSetShadowOffsetX (JS.of_Z 4); CSetShadowOffsetY (JS.of_Z 4);
       CPaint (overlayDraw img)
         (withShadow initialDrawState "rgba(0, 0, 0, 0.5)"
            (JS.of_Z 20) (JS.of_Z 4) (JS.of_Z 4));
       CSetShadowColor "transparent"; CSetShadowBlur (JS.of_Z 0);
       CSetShadowOffsetX (JS.of_Z 0); CSetShadowOffsetY (JS.of_Z 0)]
  end.

Definition frameCalls (fm : FacingMode) (video : HTMLVideoElement)
  (productImage : option HTMLImageElement) : list Call :=
  [CSetWidth STORY_WIDTH; CSetHeight STORY_HEIGHT; CSetFillStyle "#000000";
   CPaint (FillRect (JS.of_Z 0) (JS.of_Z 0)
             (JS.of_nat STORY_WIDTH) (JS.of_nat STORY_HEIGHT)) initialDrawState;
   CSave; CBeginPath; CRect topHalfRect; CClip]
  ++ mirrorCalls fm (JS.of_nat STORY_WIDTH)
  ++ [CPaint (videoDraw video) (videoDrawState fm); CRestore;
      CGetImageData 0 0 STORY_WIDTH halfHeight;
      CPutImageData STORY_WIDTH halfHeight 0 halfHeight;
      CGetImageData 0 0 STORY_WIDTH halfHeight;
      CPutImageData STORY_WIDTH halfHeight 0 0]
  ++ overlayCalls productImage.

Global Instance FacingMode_eq_dec : EqDecision FacingMode.
Proof. solve_decision. Defined.

(** The calls one run of [processFrame] adds to the log. *)
Definition callsOfFrame (c c' : Ctx) : list Call :=
  drop (length (calls c)) (calls c').





Definition isOverlayDraw (k : Call) : bool :=
  match k with CPaint (DrawImage (SrcImage _) _ _ _ _) _ => true | _ => false end.







(** A rasteriser that fills what it paints with a colour read off the pixel's
    position and leaves fully transparent pixels of an image alone. *)
Definition sampleRasteriser : Rasteriser :=
  fun cmd st W H x y old =>
    match cmd with
    | FillRect _ _ _ _ => {| red := 0; green := 0; blue := 0; alpha := 255 |}
    | DrawImage (SrcVideo _) _ _ _ _ | DrawImage9 (SrcVideo _) _ _ _ _ _ _ _ _ =>
        {| red := Z.of_nat (17 * x + 3 * y) mod 256;
           green := Z.of_nat (5 * x + 11 * y) mod 256;
           blue := Z.of_nat (x + y) mod 256;
           alpha := 255 |}
    | _ => old
    end.

Definition sampleVideo : HTMLVideoElement :=
  {| readyState := 4; videoWidth := 4; videoHeight := 6; videoFrame := [] |}.

Definition sampleImage : HTMLImageElement :=
  {| naturalWidth := 400; naturalHeight := 800; imagePixels := [] |}.

(** The canvas as the browser creates it, before anything is drawn. *)
Definition blankCanvas : Ctx :=
  {| width := 300; height := 150; bitmap := replicate (4 * 300 * 150) 0%Z;
     state := initialDrawState; stack := []; path := []; calls := [] |}.


(** The edges of the cycle, each with the event that takes it. *)
Inductive transition : RecordingState -> Event -> RecordingState -> Prop :=
| start_edge : transition idle (Click BtnRecord) recording
| stop_edge : transition recording StopEvent converting
| settle_edge : transition converting ConversionSettled preview
| reset_edge : transition preview (Click BtnReset) idle.

(** What holds of the recorder and of the pending conversion in every state
    the component reaches. *)
Record Inv (s : Component) : Prop := {
  inv_busy : recorderBusy s = true -> recordingState s = recording;
  inv_converting : is_Some (conversionOf s) -> recordingState s = converting;
  inv_queued : forall r, mediaRecorderRef s = Some r ->
                         stopQueued r = true -> recorderState r = inactive
}.




(** [m1 * 2^e1 <= m2 * 2^e2], on integers. *)
Definition Fle (m1 e1 m2 e2 : Z) : Prop :=
  (m1 * 2 ^ (e1 - Z.min e1 e2) <= m2 * 2 ^ (e2 - Z.min e1 e2))%Z.

Definition sampleBrowser : Browser :=
  {| share := None; canShare := fun _ => false;
     supportsMimeType := fun _ => true;
     transcoder := fun _ => None; now := 0 |}.

Definition sampleStream : MediaStream :=
  [{| kind := videoTrack; source := Camera; trackId := 1 |};
   {| kind := audioTrack; source := Microphone; trackId := 2 |}].

(** The component once the camera runs and the canvas is mounted. *)
Definition readyComponent : Component :=
  setCameraReady true
    (set_streamRef (Some sampleStream)
       (set_combinedCanvasRef (Some 0) initialComponent)).

(** The chunks the recorder hands over, one [dataavailable] event each. *)
Definition deliver (chunks : list Blob) (s : Component) : Component :=
  foldl (fun s data => ondataavailable data s) s chunks.

(** The preview is on screen with a URL that names the blob of [mp4BlobRef]. *)
Definition previewReady (s : Component) : Prop :=
  exists url blob,
    recordedVideoUrl s = Some url /\
    objectURLs s !! url = Some blob /\
    mp4BlobRef s = Some blob.

(** Two contexts that differ at most in their logs. *)
Definition sameCanvas (a b : Ctx) : Prop :=
  width a = width b /\ height a = height b /\ bitmap a = bitmap b /\
  state a = state b /\ stack a = stack b /\ path a = path b.

(** The calls of the overlay change neither the size of the canvas nor the
    stack of saved states. *)
Definition keepsFrame (f : Ctx -> Ctx) : Prop :=
  forall c, width (f c) = width c /\ height (f c) = height c /\ stack (f c) = stack c.

(** The character of a decimal digit. *)
Definition digitChar (n : nat) : Ascii.ascii := Ascii.ascii_of_nat (48 + n).

(** Two decimal digits, the tens first. *)
Definition twoDigits (n : nat) : string :=
  String (digitChar (n / 10)) (String (digitChar (n mod 10)) EmptyString).

(** A run of events, one after the other; [None] when one of them cannot
    happen where it comes. *)
Fixpoint run (B : Browser) (es : list Event) (s : Component) : option Component :=
  match es with
  | [] => Some s
  | e :: es => s' ← step B e s; run B es s'
  end.

(** A transcoder that hands its input back. *)
Definition copyTranscoder : Transcoder := fun input => Some input.

Definition sampleBlob : Blob :=
  {| blobType := "video/webm"; blobBytes := [26; 69; 223; 163]%Z |}.

Definition emptyFFmpeg : FFmpeg := {| files := ∅ |}.

(** The component while it records. *)
Definition recordingComponent : Component :=
  startRecording sampleBrowser readyComponent.

(** A whole session: record, one chunk, stop, the conversion fails (FFmpeg
    is not loaded), preview. *)
Definition sessionEvents : list Event :=
  [Click BtnRecord; DataAvailable sampleBlob; Click BtnStop; StopEvent;
   ConversionSettled].

Definition previewComponent : Component :=
  default readyComponent (run sampleBrowser sessionEvents readyComponent).

(** A canvas that has been drawn on before. *)
Definition usedCanvas : Ctx :=
  {| width := 2; height := 2; bitmap := replicate 16 255%Z;
     state := initialDrawState; stack := [initialDrawState]; path := [];
     calls := [CSave] |}.

(* ===================================================================== *)
(** * Theorems *)
(* ===================================================================== *)

(** [lia] is to see through [/] and [mod] in the index arithmetic. *)
Ltac Zify.zify_post_hook ::= Z.to_euclidean_division_equations.

Lemma invertAt_lookup data i k :
  invertAt data i !! k = if decide (k = i) then inv8 <$> data !! k else data !! k.
Proof.
  unfold invertAt. destruct (data !! i) as [v|] eqn:Hi.
  - destruct (decide (k = i)) as [->|Hne].
    + rewrite list_lookup_insert_eq by (eapply lookup_lt_Some; eauto).
      rewrite Hi. reflexivity.
    + rewrite list_lookup_insert_ne by congruence. reflexivity.
  - destruct (decide (k = i)) as [->|Hne]; [rewrite Hi|]; reflexivity.
Qed.

Lemma invertPixel_lookup data i k :
  invertPixel data i !! k =
  if decide (i <= k < i + 3) then inv8 <$> data !! k else data !! k.
Proof.
  unfold invertPixel. rewrite !invertAt_lookup.
  repeat case_decide; try lia; try reflexivity.
Qed.

Lemma invertLoop_lookup data i k :
  i mod 4 = 0 ->
  invertLoop data i !! k =
  if decide (i <= k /\ k mod 4 <> 3) then inv8 <$> data !! k else data !! k.
Proof.
  revert k. funelim (invertLoop data i); intros k Hi.
  - rewrite H by lia.
    rewrite invertPixel_lookup.
    repeat case_decide; try reflexivity; exfalso; lia.
  - case_decide as Hk; [|reflexivity].
    rewrite (lookup_ge_None_2 data k) by lia. reflexivity.
Qed.

Lemma inv8_byte v : is_byte v -> inv8 v = (255 - v)%Z.
Proof. unfold is_byte, inv8, clamp8. lia. Qed.

Lemma inv8_is_byte v : is_byte (inv8 v).
Proof. unfold is_byte, inv8, clamp8. lia. Qed.

Lemma inv8_involutive v : is_byte v -> inv8 (inv8 v) = v.
Proof. unfold is_byte, inv8, clamp8. lia. Qed.

Lemma invert_lookup data k :
  invert data !! k = if decide (k mod 4 = 3) then data !! k else inv8 <$> data !! k.
Proof.
  unfold invert. rewrite invertLoop_lookup by reflexivity.
  repeat case_decide; try reflexivity; exfalso; lia.
Qed.

Lemma length_invertLoop data i : length (invertLoop data i) = length data.
Proof.
  funelim (invertLoop data i).
  - rewrite H. apply length_invertPixel.
  - reflexivity.
Qed.

Lemma length_invert data : length (invert data) = length data.
Proof. apply length_invertLoop. Qed.

(** C2.  The filter, stepping through the array four bytes at a time,
    replaces each red, green and blue byte [v] in 0..255 by [255 - v]; the
    byte at an index that is 3 modulo 4 (alpha) stays. *)
Theorem invert_channels (data : list Z) (k : nat) (v : Z) :
  data !! k = Some v -> is_byte v ->
  invert data !! k = Some (if decide (k mod 4 = 3) then v else (255 - v)%Z).
Proof.
  intros Hk Hv. rewrite invert_lookup, Hk. case_decide; [reflexivity|].
  simpl. rewrite inv8_byte by assumption. reflexivity.
Qed.

(** C9.  On an array of bytes the filter applied twice gives the array back,
    and one application leaves every alpha byte (index 3 modulo 4) as it
    was. *)
Theorem invert_involutive (data : list Z) :
  bytes_ok data ->
  invert (invert data) = data /\
  (forall k, k mod 4 = 3 -> invert data !! k = data !! k).
Proof.
  intros Hok. split.
  - apply list_eq. intros k. rewrite !invert_lookup.
    case_decide; [reflexivity|].
    destruct (data !! k) as [v|] eqn:Hk; [|reflexivity]. simpl.
    rewrite inv8_involutive; [reflexivity|].
    unfold bytes_ok in Hok. rewrite Forall_lookup in Hok. eauto.
  - intros k Hk. rewrite invert_lookup. case_decide; [reflexivity|contradiction].
Qed.

Lemma byte_index_div4 p ch : ch < 4 -> (4 * p + ch) / 4 = p.
Proof. intros. lia. Qed.

Lemma byte_index_mod4 p ch : ch < 4 -> (4 * p + ch) mod 4 = ch.
Proof. intros. lia. Qed.

Lemma pixel_index_col W x y : x < W -> (y * W + x) mod W = x.
Proof.
  intros. rewrite Nat.add_comm, Nat.Div0.mod_add. apply Nat.mod_small. assumption.
Qed.

Lemma pixel_index_row W x y : x < W -> (y * W + x) / W = y.
Proof.
  intros. rewrite Nat.add_comm, Nat.div_add by lia.
  rewrite Nat.div_small by assumption. reflexivity.
Qed.

Lemma pixel_index_bound W H x y : x < W -> y < H -> y * W + x < W * H.
Proof. intros. nia. Qed.

Lemma byte_index_bound W H x y ch :
  x < W -> y < H -> ch < 4 -> 4 * (y * W + x) + ch < 4 * W * H.
Proof. intros. pose proof (pixel_index_bound W H x y). nia. Qed.

Lemma byteAt_inside c x y ch :
  x < width c -> y < height c ->
  byteAt c x y ch = default 0%Z (bitmap c !! (4 * (y * width c + x) + ch)).
Proof. intros. unfold byteAt. rewrite decide_True by auto. reflexivity. Qed.

Lemma getImageData_Some sx sy sw sh c :
  0 < sw -> 0 < sh ->
  getImageData sx sy sw sh c =
  Some ({| id_width := sw; id_height := sh;
           id_data := map (fun k => byteAt c (sx + (k / 4) mod sw)
                                         (sy + (k / 4) / sw) (k mod 4))
                          (seq 0 (4 * sw * sh)) |},
        log c (CGetImageData sx sy sw sh)).
Proof. intros. unfold getImageData. rewrite decide_False by lia. reflexivity. Qed.

Lemma getImageData_lookup sx sy sw sh c x y ch :
  x < sw -> y < sh -> ch < 4 ->
  map (fun k => byteAt c (sx + (k / 4) mod sw) (sy + (k / 4) / sw) (k mod 4))
      (seq 0 (4 * sw * sh)) !! (4 * (y * sw + x) + ch)
  = Some (byteAt c (sx + x) (sy + y) ch).
Proof.
  intros Hx Hy Hch. rewrite list_lookup_fmap.
  rewrite lookup_seq_lt by (apply byte_index_bound; assumption).
  cbn [fmap option_fmap option_map]. rewrite Nat.add_0_l.
  rewrite byte_index_div4, byte_index_mod4 by assumption.
  rewrite pixel_index_col, pixel_index_row by assumption. reflexivity.
Qed.

Lemma byteAt_putImageData img dx dy c x y ch :
  wfCtx c -> x < width c -> y < height c -> ch < 4 ->
  byteAt (putImageData img dx dy c) x y ch =
  if decide (dx <= x < dx + id_width img /\ dy <= y < dy + id_height img)
  then default (byteAt c x y ch)
         (id_data img !! (4 * ((y - dy) * id_width img + (x - dx)) + ch))
  else byteAt c x y ch.
Proof.
  intros Hwf Hx Hy Hch.
  rewrite (byteAt_inside c) by assumption.
  rewrite byteAt_inside by assumption. cbn [putImageData log withBitmap width bitmap].
  rewrite list_lookup_imap.
  assert (Hlt : 4 * (y * width c + x) + ch < length (bitmap c)).
  { rewrite Hwf. apply byte_index_bound; assumption. }
  destruct (lookup_lt_is_Some_2 _ _ Hlt) as [old Hold]. rewrite Hold.
  cbn [fmap option_fmap option_map default]. cbv zeta.
  rewrite byte_index_div4, byte_index_mod4 by assumption.
  rewrite pixel_index_col, pixel_index_row by assumption.
  reflexivity.
Qed.

Lemma clamp8_is_byte z : is_byte (clamp8 z).
Proof. unfold is_byte, clamp8. lia. Qed.

Lemma imap_clamp8_bytes (f : nat -> Z) (bm : list Z) :
  bytes_ok (imap (fun k _ => clamp8 (f k)) bm).
Proof.
  apply Forall_lookup. intros k v.
  rewrite list_lookup_imap. destruct (bm !! k); [|discriminate].
  intros [= <-]. apply clamp8_is_byte.
Qed.

Lemma paint_bytes R cmd c : bytesCtx (paint R cmd c).
Proof. unfold bytesCtx. ctx_cbn. apply imap_clamp8_bytes. Qed.

Lemma paint_wf R cmd c : wfCtx c -> wfCtx (paint R cmd c).
Proof. unfold wfCtx. ctx_cbn. rewrite length_imap. auto. Qed.

Lemma putImageData_wf img dx dy c : wfCtx c -> wfCtx (putImageData img dx dy c).
Proof. unfold wfCtx. ctx_cbn. rewrite length_imap. auto. Qed.

Lemma resized_wf c w h : wfCtx (resized c w h).
Proof. unfold wfCtx. ctx_cbn. apply length_replicate. Qed.

Lemma byteAt_is_byte c x y ch : bytesCtx c -> is_byte (byteAt c x y ch).
Proof.
  intros Hb. unfold byteAt. case_decide; [|unfold is_byte; lia].
  destruct (bitmap c !! _) as [v|] eqn:Hv; simpl; [|unfold is_byte; lia].
  unfold bytesCtx, bytes_ok in Hb. rewrite Forall_lookup in Hb. eauto.
Qed.

Lemma byteAt_log c k x y ch : byteAt (log c k) x y ch = byteAt c x y ch.
Proof. reflexivity. Qed.

(** The canvas after STEP 1. *)
Lemma drawTopHalf_canvas R fm video c :
  let d := drawTopHalf R fm video c in
  width d = STORY_WIDTH /\ height d = STORY_HEIGHT /\ wfCtx d /\ bytesCtx d.
Proof.
  unfold drawTopHalf. destruct fm; ctx_cbn; unfold wfCtx, bytesCtx; ctx_cbn.
  all: rewrite !length_imap, length_replicate.
  all: repeat split; try reflexivity.
  all: apply imap_clamp8_bytes.
Qed.


Lemma copyAndInvert_bytes w half c :
  wfCtx c -> width c = w -> 0 < w -> 0 < half -> 2 * half <= height c ->
  exists c',
    copyAndInvert w half c = Some c' /\
    width c' = w /\ height c' = height c /\ wfCtx c' /\
    forall x y ch, x < w -> y < height c -> ch < 4 ->
      byteAt c' x y ch =
        if decide (y < half) then
          if decide (ch = 3) then byteAt c x y ch else inv8 (byteAt c x y ch)
        else if decide (y < 2 * half) then byteAt c x (y - half) ch
        else byteAt c x y ch.
Proof.
  intros Hwf Hw Hw0 Hh0 Hfit. unfold copyAndInvert.
  rewrite getImageData_Some by assumption. cbn [mbind option_bind].
  set (top := map _ (seq 0 (4 * w * half))).
  set (c1 := putImageData _ 0 half (log c _)).
  assert (Hwf1 : wfCtx c1) by (apply putImageData_wf; exact Hwf).
  assert (Hc1 : forall x y ch, x < w -> y < height c -> ch < 4 ->
            byteAt c1 x y ch =
            if decide (half <= y < 2 * half) then byteAt c x (y - half) ch
            else byteAt c x y ch).
  { intros x y ch Hx Hy Hch. unfold c1.
    rewrite byteAt_putImageData; [| exact Hwf | cbn; lia | cbn; lia | exact Hch].
    cbn [id_width id_height id_data]. rewrite byteAt_log.
    destruct (decide (half <= y < 2 * half)) as [Hin|Hout].
    - rewrite decide_True by lia. rewrite Nat.sub_0_r. unfold top.
      rewrite getImageData_lookup by lia. reflexivity.
    - rewrite decide_False by lia. reflexivity. }
  rewrite getImageData_Some by assumption. cbn [mbind option_bind].
  set (top2 := map _ (seq 0 (4 * w * half))).
  eexists. split; [reflexivity|].
  split; [exact Hw|]. split; [reflexivity|].
  split; [apply putImageData_wf; exact Hwf1|].
  intros x y ch Hx Hy Hch.
  rewrite byteAt_putImageData; [| exact Hwf1 | cbn; lia | cbn; lia | exact Hch].
  cbn [id_width id_height id_data]. rewrite byteAt_log.
  destruct (decide (y < half)) as [Htop|Hbot].
  - rewrite decide_True by lia. rewrite !Nat.sub_0_r.
    rewrite invert_lookup, byte_index_mod4 by assumption.
    unfold top2. rewrite getImageData_lookup by lia.
    cbn [Nat.add]. rewrite Hc1 by assumption.
    rewrite decide_False by lia.
    destruct (decide (ch = 3)); reflexivity.
  - rewrite decide_False by lia. rewrite Hc1 by assumption.
    destruct (decide (y < 2 * half)).
    + rewrite decide_True by lia. reflexivity.
    + rewrite decide_False by lia. reflexivity.
Qed.

Lemma copyAndInvert_halves w half c :
  wfCtx c -> bytesCtx c -> width c = w -> 0 < w -> 0 < half ->
  2 * half <= height c ->
  exists c', copyAndInvert w half c = Some c' /\ sameFrameInBothHalves w half c c'.
Proof.
  intros Hwf Hb Hw Hw0 Hh0 Hfit.
  destruct (copyAndInvert_bytes w half c Hwf Hw Hw0 Hh0 Hfit)
    as (c' & Hrun & _ & _ & _ & Hbytes).
  exists c'. split; [exact Hrun|].
  intros x y ch Hx Hy Hch. split.
  - rewrite Hbytes by lia. rewrite decide_False by lia.
    rewrite decide_True by lia. f_equal. lia.
  - rewrite Hbytes by lia. rewrite decide_True by lia.
    destruct (decide (ch = 3)); [reflexivity|].
    apply inv8_byte, byteAt_is_byte, Hb.
Qed.

Lemma copyAndInvert_throws w half c :
  w = 0 \/ half = 0 -> copyAndInvert w half c = None.
Proof.
  intros H. unfold copyAndInvert, getImageData.
  rewrite decide_True by assumption. reflexivity.
Qed.

Lemma processFrame_composes R facingMode video productImage c :
  readyState video = HAVE_ENOUGH_DATA ->
  let drawn := drawTopHalf R facingMode video c in
  exists composed,
    copyAndInvert STORY_WIDTH halfHeight drawn = Some composed /\
    processFrame R facingMode video productImage c
      = Some (drawOverlay R productImage composed) /\
    sameFrameInBothHalves STORY_WIDTH halfHeight drawn composed.
Proof.
  intros Hready drawn.
  destruct (drawTopHalf_canvas R facingMode video c) as (Hw & Hh & Hwf & Hb).
  fold drawn in Hw, Hh, Hwf, Hb.
  destruct (copyAndInvert_halves STORY_WIDTH halfHeight drawn)
    as (composed & Hrun & Hsame); try assumption.
  - unfold STORY_WIDTH. lia.
  - unfold halfHeight, STORY_HEIGHT. lia.
  - rewrite Hh. unfold halfHeight, STORY_HEIGHT. lia.
  - exists composed. split; [exact Hrun|]. split; [|exact Hsame].
    unfold processFrame. rewrite decide_True by assumption.
    fold drawn. rewrite Hrun. reflexivity.
Qed.



(** The trace of one composited frame, written out. *)

Lemma halfHeight_pos : 0 < halfHeight.
Proof. unfold halfHeight, STORY_HEIGHT. lia. Qed.

Lemma STORY_WIDTH_pos : 0 < STORY_WIDTH.
Proof. unfold STORY_WIDTH. lia. Qed.

Lemma drawTopHalf_calls R fm video c :
  calls (drawTopHalf R fm video c) =
  calls c ++
  [CSetWidth STORY_WIDTH; CSetHeight STORY_HEIGHT; CSetFillStyle "#000000";
   CPaint (FillRect (JS.of_Z 0) (JS.of_Z 0)
             (JS.of_nat STORY_WIDTH) (JS.of_nat STORY_HEIGHT)) initialDrawState;
   CSave; CBeginPath; CRect topHalfRect; CClip]
  ++ mirrorCalls fm (JS.of_nat STORY_WIDTH)
  ++ [CPaint (videoDraw video) (videoDrawState fm); CRestore].
Proof.
  unfold drawTopHalf. destruct fm; ctx_cbn; rewrite <- !app_assoc; reflexivity.
Qed.

Lemma drawTopHalf_state R fm video c :
  state (drawTopHalf R fm video c) = initialDrawState.
Proof. unfold drawTopHalf. destruct fm; ctx_cbn; reflexivity. Qed.

Lemma copyAndInvert_calls w half c c' :
  copyAndInvert w half c = Some c' ->
  calls c' = calls c ++ [CGetImageData 0 0 w half; CPutImageData w half 0 half;
                         CGetImageData 0 0 w half; CPutImageData w half 0 0]
  /\ state c' = state c.
Proof.
  unfold copyAndInvert, getImageData. case_decide; [discriminate|].
  cbn [mbind option_bind]. intros [= <-]. ctx_cbn. cbn [id_width id_height].
  rewrite <- !app_assoc. split; reflexivity.
Qed.

Lemma drawOverlay_calls R productImage c :
  state c = initialDrawState ->
  calls (drawOverlay R productImage c) = calls c ++ overlayCalls productImage.
Proof.
  intros Hst. destruct productImage as [img|]; cbn [drawOverlay overlayCalls].
  - ctx_cbn. rewrite Hst. rewrite <- !app_assoc. reflexivity.
  - rewrite app_nil_r. reflexivity.
Qed.

Lemma processFrame_calls R fm video productImage c :
  readyState video = HAVE_ENOUGH_DATA ->
  exists c', processFrame R fm video productImage c = Some c' /\
             calls c' = calls c ++ frameCalls fm video productImage.
Proof.
  intros Hready.
  destruct (processFrame_composes R fm video productImage c Hready)
    as (composed & Hrun & Hframe & _).
  exists (drawOverlay R productImage composed). split; [exact Hframe|].
  destruct (copyAndInvert_calls _ _ _ _ Hrun) as [Hcalls Hstate].
  rewrite drawOverlay_calls by (rewrite Hstate; apply drawTopHalf_state).
  rewrite Hcalls, drawTopHalf_calls. unfold frameCalls.
  rewrite <- !app_assoc. reflexivity.
Qed.

Lemma callsOfFrame_app c c' added :
  calls c' = calls c ++ added -> callsOfFrame c c' = added.
Proof. intros H. unfold callsOfFrame. rewrite H. apply drop_app_length. Qed.







(** ** Sample inputs *)



(** ** The overlay *)

Lemma overlay_in_frameCalls fm video img :
  CPaint (overlayDraw img)
    (withShadow initialDrawState "rgba(0, 0, 0, 0.5)" (JS.of_Z 20) (JS.of_Z 4) (JS.of_Z 4))
  ∈ frameCalls fm video (Some img).
Proof.
  unfold frameCalls. rewrite !elem_of_app. right. right. right.
  cbn [overlayCalls]. do 4 apply list_elem_of_further. apply list_elem_of_here.
Qed.

(** C8.  When the product image has loaded, every composited frame draws it
    with height [1920 * 0.18], width that height times
    [naturalWidth / naturalHeight], top at [halfHeight - height / 2] and left
    at [(1080 - width) / 2 - 1080 * 0.18].  In binary64 the height is
    6079859496950169 * 2^-44 (345.59999999999997) and the top is
    6924284427082138 * 2^-43 (787.2). *)
Theorem overlay_drawn_on_split_line R fm video img c :
  readyState video = HAVE_ENOUGH_DATA ->
  exists c' st x y w h,
    processFrame R fm video (Some img) c = Some c' /\
    CPaint (DrawImage (SrcImage img) x y w h) st ∈ callsOfFrame c c' /\
    h = (JS.of_nat STORY_HEIGHT * JS.lit_0_18)%js /\
    w = (h * (JS.of_nat (naturalWidth img) / JS.of_nat (naturalHeight img)))%js /\
    y = (halfHeightN - h / JS.of_Z 2)%js /\
    x = ((JS.of_nat STORY_WIDTH - w) / JS.of_Z 2
         - JS.of_nat STORY_WIDTH * JS.lit_0_18)%js /\
    h = S754_finite false 6079859496950169 (-44) /\
    y = S754_finite false 6924284427082138 (-43).
Proof.
  intros Hready.
  destruct (processFrame_calls R fm video (Some img) c Hready) as (c' & Hrun & Hcalls).
  exists c'. eexists. eexists. eexists. eexists. eexists.
  split; [exact Hrun|]. rewrite (callsOfFrame_app _ _ _ Hcalls).
  split; [apply overlay_in_frameCalls|].
  cbn [overlayRect productX productY productWidth productHeight].
  repeat split; vm_compute; reflexivity.
Qed.

(** ** Streams *)








(** ** The stop handler *)

Lemma showPreview_spec blob s :
  let s' := showPreview blob s in
  recordingState s' = preview /\
  mp4BlobRef s' = Some blob /\
  conversionOf s' = conversionOf s /\
  mediaRecorderRef s' = mediaRecorderRef s /\
  exists url, recordedVideoUrl s' = Some url /\ objectURLs s' !! url = Some blob.
Proof.
  unfold showPreview, createObjectURL. cbn.
  repeat split. eexists. split; [reflexivity|]. apply lookup_insert_eq.
Qed.

Lemma onstop_ends_in_preview B s :
  let webmBlob := newBlob (chunksRef s) "video/webm" in
  let s' := onstop B s in
  recordingState s' = preview /\
  exists url blob,
    recordedVideoUrl s' = Some url /\
    objectURLs s' !! url = Some blob /\
    mp4BlobRef s' = Some blob /\
    match fst (convertToMp4 (transcoder B) (ffmpegRef s) webmBlob) with
    | Ok mp4Blob => blob = mp4Blob
    | Throw _ => blob = webmBlob
    end.
Proof.
  intros webmBlob s'. unfold s', onstop, onstop_settle.
  cbn [onstop_begin conversionOf set_conversionOf setConvertProgress setRecordingState
       ffmpegRef chunksRef].
  fold webmBlob.
  destruct (convertToMp4 (transcoder B) (ffmpegRef s) webmBlob) as [[mp4Blob|err] ff];
    cbn [fst].
  - match goal with |- context [showPreview ?b ?x] =>
      destruct (showPreview_spec b x) as (H1 & H2 & _ & _ & url & H3 & H4) end.
    split; [exact H1|]. exists url, mp4Blob. auto.
  - match goal with |- context [showPreview ?b ?x] =>
      destruct (showPreview_spec b x) as (H1 & H2 & _ & _ & url & H3 & H4) end.
    split; [exact H1|]. exists url, webmBlob. auto.
Qed.

(** C5.  The stop handler always ends in [preview], with the recorded-video
    URL naming a blob that is also in [mp4BlobRef]: the MP4 when
    [convertToMp4] returns, the WebM blob built from the chunks when it
    throws. *)
Theorem onstop_falls_back_to_webm B s :
  let webmBlob := newBlob (chunksRef s) "video/webm" in
  let s' := onstop B s in
  recordingState s' = preview /\
  exists url blob,
    recordedVideoUrl s' = Some url /\
    objectURLs s' !! url = Some blob /\
    mp4BlobRef s' = Some blob /\
    match fst (convertToMp4 (transcoder B) (ffmpegRef s) webmBlob) with
    | Ok mp4Blob => blob = mp4Blob
    | Throw _ => blob = webmBlob
    end.
Proof. exact (onstop_ends_in_preview B s). Qed.

(** ** The recording state machine *)

Lemma Inv_initial : Inv initialComponent.
Proof.
  split; cbn.
  - discriminate.
  - intros [? H]. discriminate H.
  - intros r H. discriminate H.
Qed.

(** A step that leaves the recorder, the pending conversion and the
    recording state alone keeps the invariant. *)
Lemma Inv_frame s s' :
  mediaRecorderRef s' = mediaRecorderRef s ->
  conversionOf s' = conversionOf s ->
  recordingState s' = recordingState s ->
  Inv s -> Inv s'.
Proof.
  intros Hr Hc Hst [H1 H2 H3]. split.
  - unfold recorderBusy. rewrite Hr, Hst. exact H1.
  - rewrite Hc, Hst. exact H2.
  - rewrite Hr. exact H3.
Qed.

Lemma previewShown_preview s : previewShown s = true -> recordingState s = preview.
Proof.
  unfold previewShown. rewrite andb_true_iff, bool_decide_eq_true. tauto.
Qed.

Lemma showPreview_frame blob s :
  mediaRecorderRef (showPreview blob s) = mediaRecorderRef s /\
  conversionOf (showPreview blob s) = conversionOf s /\
  recordingState (showPreview blob s) = preview.
Proof. unfold showPreview, createObjectURL. cbn. auto. Qed.

Lemma downloadVideo_frame B s :
  mediaRecorderRef (downloadVideo B s) = mediaRecorderRef s /\
  conversionOf (downloadVideo B s) = conversionOf s /\
  recordingState (downloadVideo B s) = recordingState s.
Proof.
  unfold downloadVideo. destruct (recordedVideoUrl s), (mp4BlobRef s); cbn; auto.
Qed.

Lemma shareVideo_frame B s :
  mediaRecorderRef (shareVideo B s) = mediaRecorderRef s /\
  conversionOf (shareVideo B s) = conversionOf s /\
  recordingState (shareVideo B s) = recordingState s.
Proof.
  unfold shareVideo. destruct (mp4BlobRef s) as [blob|]; [|auto].
  destruct (share B) as [f|]; [|apply downloadVideo_frame].
  destruct (canShare B _); [|apply downloadVideo_frame].
  destruct (f _); cbn; auto.
Qed.

Lemma step_preserves B e s s' :
  Inv s -> step B e s = Some s' ->
  Inv s' /\
  (recordingState s' = recordingState s \/
   transition (recordingState s) e (recordingState s')).
Proof.
  intros HI Hstep. destruct e as [b|data| | | |secs| |p|img|stream| |canvas];
    cbn [step] in Hstep.
  - (* a click *)
    destruct (clickable s b) eqn:Hclick; [|discriminate]. injection Hstep as <-.
    destruct b; cbn [clickable onClick] in *.
    + (* reset *)
      apply previewShown_preview in Hclick. split.
      * destruct HI as [H1 H2 H3]. split.
        -- intros Hb. assert (Hb' : recorderBusy s = true).
           { revert Hb. unfold recorderBusy, resetCamera.
             destruct (recordedVideoUrl s); cbn; auto. }
           specialize (H1 Hb'). congruence.
        -- intros Hc. assert (Hc' : is_Some (conversionOf s)).
           { revert Hc. unfold resetCamera. destruct (recordedVideoUrl s); cbn; auto. }
           specialize (H2 Hc'). congruence.
        -- intros r Hr. apply H3. revert Hr. unfold resetCamera.
           destruct (recordedVideoUrl s); cbn; auto.
      * right. rewrite Hclick.
        replace (recordingState (resetCamera s)) with idle
          by (unfold resetCamera; destruct (recordedVideoUrl s); reflexivity).
        constructor.
    + destruct (downloadVideo_frame B s) as (Hr & Hc & Hst).
      split; [apply (Inv_frame s); assumption | left; exact Hst].
    + destruct (shareVideo_frame B s) as (Hr & Hc & Hst).
      split; [apply (Inv_frame s); assumption | left; exact Hst].
    + split; [apply (Inv_frame s); [reflexivity | reflexivity | reflexivity | exact HI] | left; reflexivity].
    + (* record *)
      rewrite !andb_true_iff, bool_decide_eq_true in Hclick.
      destruct Hclick as [[_ Hidle] _].
      unfold startRecording.
      destruct (combinedCanvasRef s) as [canvas|]; [|split; [exact HI | left; reflexivity]].
      destruct (streamRef s) as [stream|]; [|split; [exact HI | left; reflexivity]].
      destruct (supportsMimeType B vp9).
      * split.
        -- split; cbn.
           ++ reflexivity.
           ++ intros Hc. destruct HI as [_ H2 _]. specialize (H2 Hc). congruence.
           ++ intros r [= <-]. cbn. discriminate.
        -- right. rewrite Hidle. cbn. constructor.
      * split; [apply (Inv_frame s); [reflexivity | reflexivity | reflexivity | exact HI] | left; reflexivity].
    + (* stop *)
      unfold stopRecording. destruct (mediaRecorderRef s) as [r|] eqn:Hr;
        [|split; [exact HI | left; reflexivity]].
      destruct (recorderState r) eqn:Hrs; [split; [exact HI | left; reflexivity]|].
      assert (Hbusy : recorderBusy s = true) by (unfold recorderBusy; rewrite Hr, Hrs; reflexivity).
      destruct HI as [H1 H2 H3]. split; [|left; reflexivity]. split; cbn.
      * intros _. exact (H1 Hbusy).
      * exact H2.
      * intros r' [= <-]. reflexivity.
  - (* a chunk *)
    destruct (recorderBusy s); [|discriminate]. injection Hstep as <-.
    unfold ondataavailable. case_decide; [|split; [exact HI | left; reflexivity]].
    split; [apply (Inv_frame s); [reflexivity | reflexivity | reflexivity | exact HI] | left; reflexivity].
  - (* the recorder stops of its own *)
    destruct (mediaRecorderRef s) as [r|] eqn:Hr; [|discriminate].
    destruct (recorderState r) eqn:Hrs; [discriminate|]. injection Hstep as <-.
    assert (Hbusy : recorderBusy s = true) by (unfold recorderBusy; rewrite Hr, Hrs; reflexivity).
    destruct HI as [H1 H2 H3]. split; [|left; reflexivity]. split; cbn.
    + intros _. exact (H1 Hbusy).
    + exact H2.
    + intros r' [= <-]. reflexivity.
  - (* the stop event *)
    destruct (mediaRecorderRef s) as [r|] eqn:Hr; [|discriminate].
    destruct (stopQueued r) eqn:Hq; [|discriminate]. injection Hstep as <-.
    destruct HI as [H1 H2 H3].
    assert (Hin : recorderState r = inactive) by (apply H3; auto).
    assert (Hbusy : recorderBusy s = true).
    { unfold recorderBusy. rewrite Hr, Hin. exact Hq. }
    split.
    + split; cbn.
      * rewrite Hin. discriminate.
      * reflexivity.
      * intros r' [= <-]. cbn. discriminate.
    + right. rewrite (H1 Hbusy). cbn. constructor.
  - (* the conversion settles *)
    destruct (conversionOf s) as [webm|] eqn:Hc; [|discriminate]. injection Hstep as <-.
    destruct HI as [H1 H2 H3].
    assert (Hst : recordingState s = converting) by (apply H2; eauto).
    assert (Hquiet : recorderBusy s = false).
    { destruct (recorderBusy s) eqn:E; [|reflexivity]. specialize (H1 eq_refl). congruence. }
    assert (Hframe : mediaRecorderRef (onstop_settle B s) = mediaRecorderRef s /\
                     conversionOf (onstop_settle B s) = None /\
                     recordingState (onstop_settle B s) = preview).
    { unfold onstop_settle. rewrite Hc. cbn [ffmpegRef set_conversionOf].
      destruct (convertToMp4 (transcoder B) (ffmpegRef s) webm) as [[mp4|err] ff];
        unfold showPreview, createObjectURL; cbn; auto. }
    destruct Hframe as (Hr' & Hc' & Hst'). split.
    + split.
      * unfold recorderBusy. rewrite Hr'. fold (recorderBusy s). rewrite Hquiet. discriminate.
      * rewrite Hc'. intros [? H]. discriminate H.
      * rewrite Hr'. exact H3.
    + right. rewrite Hst, Hst'. constructor.
  - destruct (mediaRecorderRef s) as [r|]; [|discriminate].
    destruct (timerInterval r); [|discriminate]. injection Hstep as <-.
    split; [apply (Inv_frame s); [reflexivity | reflexivity | reflexivity | exact HI] | left; reflexivity].
  - injection Hstep as <-.
    split; [apply (Inv_frame s); [reflexivity | reflexivity | reflexivity | exact HI] | left; reflexivity].
  - injection Hstep as <-. split; [apply (Inv_frame s); [reflexivity | reflexivity | reflexivity | exact HI] | left; reflexivity].
  - injection Hstep as <-. split; [apply (Inv_frame s); [reflexivity | reflexivity | reflexivity | exact HI] | left; reflexivity].
  - injection Hstep as <-. split; [apply (Inv_frame s); [reflexivity | reflexivity | reflexivity | exact HI] | left; reflexivity].
  - injection Hstep as <-. split; [apply (Inv_frame s); [reflexivity | reflexivity | reflexivity | exact HI] | left; reflexivity].
  - injection Hstep as <-. split; [apply (Inv_frame s); [reflexivity | reflexivity | reflexivity | exact HI] | left; reflexivity].
Qed.

Lemma reachable_Inv B s : reachable B s -> Inv s.
Proof.
  induction 1 as [|s e s' _ IH Hstep]; [apply Inv_initial|].
  exact (proj1 (step_preserves B e s s' IH Hstep)).
Qed.

(** C6.  The recording state is one of the four values, and a step of the
    component from a state it can reach either leaves it as it is or takes
    an edge of the cycle: idle to recording on the record button, recording
    to converting on the recorder's stop event, converting to preview when
    the conversion settles, preview to idle on reset. *)
Theorem recordingState_follows_cycle B s e s' :
  reachable B s -> step B e s = Some s' ->
  (recordingState s' = idle \/ recordingState s' = recording \/
   recordingState s' = preview \/ recordingState s' = converting) /\
  (recordingState s' = recordingState s \/
   transition (recordingState s) e (recordingState s')).
Proof.
  intros Hr Hstep. split.
  - destruct (recordingState s'); auto.
  - exact (proj2 (step_preserves B e s s' (reachable_Inv B s Hr) Hstep)).
Qed.

(** ** Sharing *)




Lemma invert_channels_witness :
  [10; 20; 30; 40]%Z !! 1 = Some 20%Z /\ is_byte 20 /\
  invert [10; 20; 30; 40]%Z !! 1 = Some 235%Z.
Proof.
  split; [reflexivity|]. split; [unfold is_byte; lia|].
  apply (invert_channels [10; 20; 30; 40]%Z 1 20%Z); [reflexivity | unfold is_byte; lia].
Defined.

Lemma invert_involutive_witness :
  bytes_ok [0; 128; 255; 7; 9]%Z /\
  invert (invert [0; 128; 255; 7; 9]%Z) = [0; 128; 255; 7; 9]%Z.
Proof.
  assert (H : bytes_ok [0; 128; 255; 7; 9]%Z)
    by (repeat constructor; unfold is_byte; lia).
  split; [exact H|]. exact (proj1 (invert_involutive _ H)).
Defined.


Lemma readyComponent_reachable : reachable sampleBrowser readyComponent.
Proof.
  eapply (reach_step _ _ LoadedMetadata); [|reflexivity].
  eapply (reach_step _ _ (CameraStarted sampleStream)); [|reflexivity].
  eapply (reach_step _ _ (CanvasRef (Some 0))); [|reflexivity].
  apply reach_init.
Defined.

Lemma recordingState_follows_cycle_witness :
  reachable sampleBrowser readyComponent /\
  step sampleBrowser (Click BtnRecord) readyComponent
    = Some (startRecording sampleBrowser readyComponent) /\
  transition (recordingState readyComponent) (Click BtnRecord)
    (recordingState (startRecording sampleBrowser readyComponent)).
Proof.
  split; [exact readyComponent_reachable|]. split; [reflexivity|].
  destruct (recordingState_follows_cycle sampleBrowser readyComponent (Click BtnRecord)
              (startRecording sampleBrowser readyComponent)
              readyComponent_reachable eq_refl) as [_ [H|H]].
  - discriminate H.
  - exact H.
Defined.

Lemma overlay_drawn_witness :
  readyState sampleVideo = HAVE_ENOUGH_DATA /\
  exists c',
    processFrame sampleRasteriser user sampleVideo (Some sampleImage) blankCanvas
      = Some c' /\
    existsb isOverlayDraw (callsOfFrame blankCanvas c') = true.
Proof.
  split; [reflexivity|].
  destruct (overlay_drawn_on_split_line sampleRasteriser user sampleVideo sampleImage
              blankCanvas eq_refl)
    as (c' & st & x & y & w & h & Hrun & Hin & _).
  exists c'. split; [exact Hrun|].
  apply existsb_exists. eexists. split; [apply list_elem_of_In; exact Hin | reflexivity].
Defined.

Ltac Zify.zify_post_hook ::= idtac.

(* ===================================================================== *)
(** * Rounding in binary64, and the draw rectangle *)
(* ===================================================================== *)

Local Open Scope Z_scope.

Lemma fexp_eq e : fexp JS.prec JS.emax e = Z.max (e - 53) (-1074).
Proof. reflexivity. Qed.

Lemma fexp_mono e1 e2 : e1 <= e2 -> fexp JS.prec JS.emax e1 <= fexp JS.prec JS.emax e2.
Proof. rewrite !fexp_eq. lia. Qed.

Lemma digits2_pos_bounds (m : positive) :
  2 ^ (Zpos (digits2_pos m) - 1) <= Zpos m < 2 ^ Zpos (digits2_pos m).
Proof.
  induction m as [p IH|p IH|]; cbn [digits2_pos].
  - rewrite Pos2Z.inj_succ.
    replace (Z.succ (Zpos (digits2_pos p)) - 1) with (Z.succ (Zpos (digits2_pos p) - 1)) by lia.
    rewrite !Z.pow_succ_r by lia. lia.
  - rewrite Pos2Z.inj_succ.
    replace (Z.succ (Zpos (digits2_pos p)) - 1) with (Z.succ (Zpos (digits2_pos p) - 1)) by lia.
    rewrite !Z.pow_succ_r by lia. lia.
  - cbn. lia.
Qed.

Lemma Zdigits2_nonneg m : 0 <= Zdigits2 m.
Proof. destruct m; cbn; lia. Qed.

Lemma Zdigits2_bounds m :
  0 < m -> 2 ^ (Zdigits2 m - 1) <= m < 2 ^ Zdigits2 m.
Proof. destruct m as [|p|p]; try lia. intros _. apply digits2_pos_bounds. Qed.

Lemma Zdigits2_pos m : 0 < m -> 0 < Zdigits2 m.
Proof. destruct m; cbn; lia. Qed.

(** The digit count is the only [d] with [2^(d-1) <= m < 2^d]. *)
Lemma Zdigits2_ge m d : 0 <= d -> 2 ^ d <= m -> d < Zdigits2 m.
Proof.
  intros Hd Hm. assert (0 < m) by (pose proof (Z.pow_pos_nonneg 2 d); lia).
  destruct (Zdigits2_bounds m H) as [_ Hu].
  destruct (Z_lt_le_dec d (Zdigits2 m)) as [|Hle]; [assumption|].
  pose proof (Z.pow_le_mono_r 2 _ _ ltac:(lia) Hle). lia.
Qed.

Lemma Zdigits2_le m d : 0 <= d -> 0 <= m < 2 ^ d -> Zdigits2 m <= d.
Proof.
  intros Hd [Hm0 Hm]. destruct (Z.eq_dec m 0) as [->|Hne]; [cbn; lia|].
  destruct (Zdigits2_bounds m ltac:(lia)) as [Hl _].
  destruct (Z_le_gt_dec (Zdigits2 m) d) as [|Hgt]; [assumption|].
  pose proof (Z.pow_le_mono_r 2 d (Zdigits2 m - 1) ltac:(lia) ltac:(lia)). lia.
Qed.

Lemma Zdigits2_mono m1 m2 : 0 <= m1 <= m2 -> Zdigits2 m1 <= Zdigits2 m2.
Proof.
  intros [H0 Hle]. destruct (Z.eq_dec m2 0) as [->|Hne].
  - replace m1 with 0 by lia. lia.
  - apply Zdigits2_le; [apply Zdigits2_nonneg|].
    destruct (Zdigits2_bounds m2 ltac:(lia)). lia.
Qed.

(** Shifting right. *)
Lemma shr_1_m mrs : 0 <= shr_m mrs -> shr_m (shr_1 mrs) = shr_m mrs / 2.
Proof.
  destruct mrs as [m r s]. cbn [shr_m]. intros Hm.
  destruct m as [|[p|p|]|p]; cbn [shr_1 shr_m]; try lia; try reflexivity.
Qed.

Lemma shr_1_nonneg mrs : 0 <= shr_m mrs -> 0 <= shr_m (shr_1 mrs).
Proof. intros H. rewrite shr_1_m by assumption. apply Z.div_pos; lia. Qed.

Lemma iter_pos_shr_1 p mrs :
  0 <= shr_m mrs ->
  shr_m (SpecFloat.iter_pos shr_1 p mrs) = shr_m mrs / 2 ^ Zpos p.
Proof.
  revert mrs. induction p as [p IH|p IH|]; intros mrs Hm; cbn [SpecFloat.iter_pos].
  - assert (H1 : 0 <= shr_m (shr_1 mrs)) by (apply shr_1_nonneg; assumption).
    assert (H2 : 0 <= shr_m (SpecFloat.iter_pos shr_1 p (shr_1 mrs))).
    { rewrite IH by assumption. apply Z.div_pos; [assumption|]. apply Z.pow_pos_nonneg; lia. }
    rewrite IH by assumption. rewrite IH by assumption. rewrite shr_1_m by assumption.
    rewrite !Z.div_div by (try apply Z.pow_pos_nonneg; lia).
    f_equal. rewrite (Pos2Z.inj_xI p).
    replace (2 * Zpos p + 1) with (1 + Zpos p + Zpos p) by lia.
    rewrite !Z.pow_add_r by lia. change (2 ^ 1) with 2. lia.
  - assert (H2 : 0 <= shr_m (SpecFloat.iter_pos shr_1 p mrs)).
    { rewrite IH by assumption. apply Z.div_pos; [assumption|]. apply Z.pow_pos_nonneg; lia. }
    rewrite IH by assumption. rewrite IH by assumption.
    rewrite !Z.div_div by (try apply Z.pow_pos_nonneg; lia).
    f_equal. rewrite (Pos2Z.inj_xO p).
    replace (2 * Zpos p) with (Zpos p + Zpos p) by lia.
    rewrite Z.pow_add_r by lia. reflexivity.
  - rewrite shr_1_m by assumption. reflexivity.
Qed.

Lemma shr_record_of_loc_m m l : shr_m (shr_record_of_loc m l) = m.
Proof. destruct l as [|[]]; reflexivity. Qed.

(** [shr] by [n]: the mantissa is divided by [2^n], the exponent grows by [n]
    (nothing happens for [n <= 0]). *)
Lemma shr_spec mrs e n :
  0 <= shr_m mrs ->
  shr_m (fst (shr mrs e n)) = shr_m mrs / 2 ^ Z.max 0 n /\
  snd (shr mrs e n) = e + Z.max 0 n.
Proof.
  intros Hm. destruct n as [|p|p]; cbn [shr fst snd].
  - cbn. rewrite Z.div_1_r. lia.
  - rewrite iter_pos_shr_1 by assumption. replace (Z.max 0 (Zpos p)) with (Zpos p) by lia. lia.
  - cbn. rewrite Z.div_1_r. lia.
Qed.

Lemma round_nearest_even_bounds m l :
  m <= round_nearest_even m l <= m + 1.
Proof. destruct l as [|[]]; cbn; try lia. destruct (Z.even m); lia. Qed.

Lemma Zdigits2_unique m d : 0 < d -> 2 ^ (d - 1) <= m < 2 ^ d -> Zdigits2 m = d.
Proof.
  intros Hd [Hl Hu].
  assert (0 < m) by (pose proof (Z.pow_pos_nonneg 2 (d - 1)); lia).
  pose proof (Zdigits2_ge m (d - 1) ltac:(lia) Hl).
  pose proof (Zdigits2_le m d ltac:(lia) ltac:(lia)). lia.
Qed.

Lemma Zdigits2_pow2 d : 0 <= d -> Zdigits2 (2 ^ d) = d + 1.
Proof.
  intros Hd. apply Zdigits2_unique; [lia|].
  replace (d + 1 - 1) with d by lia. rewrite Z.pow_add_r by lia. change (2 ^ 1) with 2.
  pose proof (Z.pow_pos_nonneg 2 d). lia.
Qed.

Lemma pow2_pos n : 0 <= n -> 0 < 2 ^ n.
Proof. intros. apply Z.pow_pos_nonneg; lia. Qed.

(** Dividing by [2^n] removes [n] digits. *)
Lemma Zdigits2_div_pow2 m n :
  0 <= n -> 0 < m / 2 ^ n -> Zdigits2 (m / 2 ^ n) = Zdigits2 m - n.
Proof.
  intros Hn Hq. pose proof (pow2_pos n Hn) as Hp.
  assert (Hm : 0 < m).
  { destruct (Z_lt_le_dec 0 m); [assumption|].
    pose proof (Z.div_le_upper_bound m (2 ^ n) 0 Hp ltac:(lia)). lia. }
  assert (Hge : 2 ^ n <= m).
  { destruct (Z_le_gt_dec (2 ^ n) m); [assumption|].
    rewrite Z.div_small in Hq by lia. lia. }
  pose proof (Zdigits2_ge m n Hn Hge) as Hd.
  destruct (Zdigits2_bounds m Hm) as [Hl Hu].
  apply Zdigits2_unique; [lia|]. split.
  - apply Z.div_le_lower_bound; [assumption|].
    rewrite <- Z.pow_add_r by lia.
    replace (n + (Zdigits2 m - n - 1)) with (Zdigits2 m - 1) by lia. assumption.
  - apply Z.div_lt_upper_bound; [assumption|].
    rewrite <- Z.pow_add_r by lia.
    replace (n + (Zdigits2 m - n)) with (Zdigits2 m) by lia. assumption.
Qed.

(** What [binary_round_aux] returns on a mantissa that is long enough. *)
Lemma binary_round_aux_spec s m e l :
  0 <= m -> e <= fexp JS.prec JS.emax (Zdigits2 m + e) ->
  let e1 := fexp JS.prec JS.emax (Zdigits2 m + e) in
  let m1 := m / 2 ^ (e1 - e) in
  (binary_round_aux JS.prec JS.emax s m e l = S754_zero s /\ m1 = 0) \/
  exists m3 e3,
    0 < m3 /\ fexp JS.prec JS.emax (Zdigits2 m3 + e3) = e3 /\
    ((e3 = e1 /\ m1 <= m3 <= m1 + 1) \/
     (e3 = e1 + 1 /\ m3 = 2 ^ 52 /\ m1 + 1 = 2 ^ 53)) /\
    binary_round_aux JS.prec JS.emax s m e l =
      if e3 <=? JS.emax - JS.prec then S754_finite s (Z.to_pos m3) e3
      else S754_infinity s.
Proof.
  intros Hm Hpre e1 m1.
  assert (Hn : 0 <= e1 - e) by (unfold e1; lia).
  pose proof (pow2_pos _ Hn) as Hpn.
  assert (Hm1 : 0 <= m1) by (apply Z.div_pos; assumption).
  assert (He1min : -1074 <= e1) by (unfold e1; rewrite fexp_eq; lia).
  assert (Hm1u : m1 < 2 ^ 53).
  { destruct (Z.eq_dec m 0) as [->|Hne].
    - unfold m1. rewrite Z.div_0_l by lia. reflexivity.
    - destruct (Zdigits2_bounds m ltac:(lia)) as [_ Hu].
      apply Z.div_lt_upper_bound; [assumption|].
      rewrite <- Z.pow_add_r by lia.
      eapply Z.lt_le_trans; [exact Hu|].
      apply Z.pow_le_mono_r; [lia|]. unfold e1. rewrite fexp_eq. lia. }
  assert (Hd1 : 0 < m1 -> Zdigits2 m1 + e1 = Zdigits2 m + e).
  { intros Hpos. unfold m1. rewrite Zdigits2_div_pow2 by assumption. lia. }
  assert (Hz1 : m1 = 0 -> e1 = -1074).
  { intros H0. destruct (Z.eq_dec m 0) as [->|Hne].
    - unfold e1 in *. cbn [Zdigits2] in *. rewrite fexp_eq in *. lia.
    - assert (Hlt : m < 2 ^ (e1 - e)).
      { destruct (Z_lt_le_dec m (2 ^ (e1 - e))); [assumption|].
        pose proof (Z.div_le_lower_bound m (2 ^ (e1 - e)) 1 Hpn ltac:(lia)).
        unfold m1 in H0. lia. }
      pose proof (Zdigits2_le m (e1 - e) Hn ltac:(lia)).
      unfold e1 in *. rewrite fexp_eq in *. lia. }
  unfold binary_round_aux, shr_fexp.
  pose proof (shr_spec (shr_record_of_loc m l) e (fexp JS.prec JS.emax (Zdigits2 m + e) - e)) as Hs1.
  rewrite shr_record_of_loc_m in Hs1. specialize (Hs1 Hm).
  destruct (shr (shr_record_of_loc m l) e _) as [mrs' e'] eqn:Hshr1.
  cbn [fst snd] in Hs1. destruct Hs1 as [Hm' He'].
  fold e1 in Hm', He'. rewrite Z.max_r in Hm', He' by lia.
  replace (e + (e1 - e)) with e1 in He' by lia. fold m1 in Hm'. subst e'.
  rewrite Hm'.
  set (m2 := round_nearest_even m1 (loc_of_shr_record mrs')).
  pose proof (round_nearest_even_bounds m1 (loc_of_shr_record mrs')) as Hm2. fold m2 in Hm2.
  pose proof (shr_spec (shr_record_of_loc m2 loc_Exact) e1
                (fexp JS.prec JS.emax (Zdigits2 m2 + e1) - e1)) as Hs2.
  rewrite shr_record_of_loc_m in Hs2. specialize (Hs2 ltac:(lia)).
  destruct (shr (shr_record_of_loc m2 loc_Exact) e1 _) as [mrs'' e''] eqn:Hshr2.
  cbn [fst snd] in Hs2. destruct Hs2 as [Hm'' He'']. rewrite Hm''. subst e''.
  set (n2 := fexp JS.prec JS.emax (Zdigits2 m2 + e1) - e1) in *.
  destruct (Z.eq_dec m2 0) as [Hz|Hnz].
  - (* rounds to zero *)
    left. rewrite Hz. rewrite Z.div_0_l by (pose proof (pow2_pos (Z.max 0 n2)); lia).
    split; [reflexivity | lia].
  - right.
    assert (Hm2pos : 0 < m2) by lia.
    destruct (Z_le_gt_dec n2 0) as [Hn2|Hn2].
    + (* no carry out of the mantissa *)
      rewrite Z.max_l by assumption. rewrite Z.div_1_r, Z.add_0_r.
      exists m2, e1. split; [assumption|]. split.
      * assert (Hge : e1 <= fexp JS.prec JS.emax (Zdigits2 m2 + e1)).
        { destruct (Z.eq_dec m1 0) as [H0|Hne].
          - rewrite fexp_eq. rewrite (Hz1 H0). lia.
          - unfold e1 at 1. apply fexp_mono. rewrite <- Hd1 by lia.
            pose proof (Zdigits2_mono m1 m2 ltac:(lia)). lia. }
        unfold n2 in Hn2. lia.
      * split; [left; split; [reflexivity | assumption]|].
        destruct m2 as [|p|p]; try lia. reflexivity.
    + (* the rounding carried: the mantissa is [2^53] *)
      assert (Hdig : 53 < Zdigits2 m2).
      { unfold n2 in Hn2. rewrite fexp_eq in Hn2. lia. }
      assert (Hm2eq : m2 = 2 ^ 53).
      { destruct (Zdigits2_bounds m2 Hm2pos) as [Hl _].
        pose proof (Z.pow_le_mono_r 2 53 (Zdigits2 m2 - 1) ltac:(lia) ltac:(lia)). lia. }
      assert (Hn2eq : n2 = 1).
      { unfold n2. rewrite Hm2eq, (Zdigits2_pow2 53) by lia. rewrite fexp_eq. lia. }
      rewrite Hn2eq, Hm2eq. change (Z.max 0 1) with 1.
      exists (2 ^ 52), (e1 + 1). split; [reflexivity|]. split.
      * rewrite (Zdigits2_pow2 52) by lia. rewrite fexp_eq. lia.
      * split; [right; repeat split; lia|]. reflexivity.
Qed.

Lemma Fle_scale k m1 e1 m2 e2 :
  k <= e1 -> k <= e2 ->
  (Fle m1 e1 m2 e2 <-> m1 * 2 ^ (e1 - k) <= m2 * 2 ^ (e2 - k)).
Proof.
  intros H1 H2. unfold Fle. set (j := Z.min e1 e2).
  assert (Hj : k <= j) by (unfold j; lia).
  replace (e1 - k) with ((e1 - j) + (j - k)) by lia.
  replace (e2 - k) with ((e2 - j) + (j - k)) by lia.
  rewrite !Z.pow_add_r by (unfold j; lia).
  pose proof (pow2_pos (j - k) ltac:(lia)) as Hp.
  rewrite !Z.mul_assoc. split; intros H.
  - apply Z.mul_le_mono_nonneg_r; lia.
  - apply Z.mul_le_mono_pos_r in H; assumption.
Qed.

(** A positive finite number: canonical mantissa, exponent in range. *)
Lemma bounded_canonical m e :
  bounded JS.prec JS.emax m e = true ->
  fexp JS.prec JS.emax (Zpos (digits2_pos m) + e) = e /\ e <= 971.
Proof.
  unfold bounded, canonical_mantissa. rewrite andb_true_iff.
  intros [H1 H2]. apply Z.eqb_eq in H1. apply Z.leb_le in H2.
  change (JS.emax - JS.prec) with 971 in H2. auto.
Qed.

(** If [mb * 2^eb <= m * 2^e] then [m * 2^e] has at least the magnitude of
    [mb * 2^eb]. *)
Lemma Fle_magnitude mb eb m e :
  0 < mb -> 0 <= m -> Fle mb eb m e -> Zdigits2 mb + eb <= Zdigits2 m + e.
Proof.
  intros Hmb Hm Hle.
  destruct (Z_le_gt_dec (Zdigits2 mb + eb) (Zdigits2 m + e)) as [|Hgt]; [assumption|].
  exfalso. unfold Fle in Hle. set (k := Z.min eb e) in *.
  assert (Hk1 : 0 <= eb - k) by (unfold k; lia).
  assert (Hk2 : 0 <= e - k) by (unfold k; lia).
  destruct (Zdigits2_bounds mb Hmb) as [Hl _].
  pose proof (Zdigits2_pos mb Hmb) as Hdb.
  pose proof (Zdigits2_nonneg m) as Hd.
  assert (Hu : m < 2 ^ Zdigits2 m).
  { destruct (Z.eq_dec m 0) as [->|]; [reflexivity|]. apply Zdigits2_bounds. lia. }
  assert (H1 : m * 2 ^ (e - k) < 2 ^ (Zdigits2 m + (e - k))).
  { rewrite Z.pow_add_r by lia. apply Z.mul_lt_mono_pos_r; [apply pow2_pos; lia | assumption]. }
  assert (H2 : 2 ^ (Zdigits2 mb - 1 + (eb - k)) <= mb * 2 ^ (eb - k)).
  { rewrite Z.pow_add_r by lia. apply Z.mul_le_mono_nonneg_r; [|assumption].
    pose proof (pow2_pos (eb - k) Hk1). lia. }
  pose proof (Z.pow_le_mono_r 2 (Zdigits2 m + (e - k)) (Zdigits2 mb - 1 + (eb - k))
                ltac:(lia) ltac:(lia)).
  lia.
Qed.

Lemma SFleb_finite_finite m1 e1 m2 e2 :
  e1 < e2 \/ (e1 = e2 /\ Zpos m1 <= Zpos m2) ->
  SFleb (S754_finite false m1 e1) (S754_finite false m2 e2) = true.
Proof.
  intros H. unfold SFleb, SFcompare. destruct (Z.compare_spec e1 e2) as [Heq|Hlt|Hgt].
  - destruct H as [H|[_ H]]; [lia|].
    rewrite Pos.compare_cont_spec.
    apply Pos2Z.pos_le_pos, Pos.compare_le_iff in H.
    destruct (m1 ?= m2)%positive; try reflexivity. contradiction.
  - reflexivity.
  - lia.
Qed.

(** Rounding never falls below a representable number that the exact value
    reaches. *)
Lemma binary_round_aux_lower_bound mb eb m e l :
  bounded JS.prec JS.emax mb eb = true ->
  0 <= m -> e <= fexp JS.prec JS.emax (Zdigits2 m + e) ->
  Fle (Zpos mb) eb m e ->
  SFleb (S754_finite false mb eb) (binary_round_aux JS.prec JS.emax false m e l) = true.
Proof.
  intros Hb Hm Hpre Hle.
  destruct (bounded_canonical _ _ Hb) as [Hcan Hebmax].
  pose proof (Fle_magnitude (Zpos mb) eb m e ltac:(lia) Hm Hle) as Hmag.
  cbn [Zdigits2] in Hmag.
  assert (Heb1 : eb <= fexp JS.prec JS.emax (Zdigits2 m + e)).
  { rewrite <- Hcan at 1. apply fexp_mono. assumption. }
  assert (Hebmin : -1074 <= eb) by (rewrite <- Hcan, fexp_eq; lia).
  destruct (binary_round_aux_spec false m e l Hm Hpre)
    as [[_ Hz] | (m3 & e3 & Hm3 & _ & Hcase & ->)].
  - (* the result cannot be zero *)
    exfalso. set (e1 := fexp JS.prec JS.emax (Zdigits2 m + e)) in *.
    assert (Hn : 0 <= e1 - e) by lia.
    pose proof (pow2_pos _ Hn) as Hpn.
    assert (Hlt : m < 2 ^ (e1 - e)).
    { destruct (Z_lt_le_dec m (2 ^ (e1 - e))); [assumption|].
      pose proof (Z.div_le_lower_bound m (2 ^ (e1 - e)) 1 Hpn ltac:(lia)). lia. }
    pose proof (Zdigits2_le m (e1 - e) Hn ltac:(lia)).
    unfold e1 in *. rewrite fexp_eq in *. lia.
  - destruct (e3 <=? JS.emax - JS.prec); [|reflexivity].
    destruct m3 as [|p3|p3]; try lia. cbn [Z.to_pos].
    apply SFleb_finite_finite.
    set (e1 := fexp JS.prec JS.emax (Zdigits2 m + e)) in *.
    destruct Hcase as [[-> Hm13] | [-> _]]; [|left; lia].
    destruct (Z.eq_dec eb e1) as [Heq|Hne]; [|left; lia].
    right. split; [assumption|].
    assert (Hmb1 : Zpos mb <= m / 2 ^ (e1 - e)).
    { apply Z.div_le_lower_bound; [apply pow2_pos; lia|].
      apply (Fle_scale e) in Hle; [|lia|lia].
      rewrite Z.sub_diag, Z.pow_0_r, Z.mul_1_r in Hle. rewrite <- Heq. lia. }
    lia.
Qed.

(** The result of a rounding is a well-formed number of the sign given. *)
Lemma binary_round_aux_valid s m e l :
  0 <= m -> e <= fexp JS.prec JS.emax (Zdigits2 m + e) ->
  let r := binary_round_aux JS.prec JS.emax s m e l in
  valid_binary JS.prec JS.emax r = true /\
  (r = S754_zero s \/ r = S754_infinity s \/ exists p q, r = S754_finite s p q).
Proof.
  intros Hm Hpre r. unfold r.
  destruct (binary_round_aux_spec s m e l Hm Hpre)
    as [[-> _] | (m3 & e3 & Hm3 & Hcan & _ & ->)].
  - split; [reflexivity | left; reflexivity].
  - destruct (e3 <=? JS.emax - JS.prec) eqn:He3.
    + split; [|right; right; eauto].
      destruct m3 as [|p3|p3]; try lia. cbn [Z.to_pos valid_binary].
      unfold bounded, canonical_mantissa. cbn [Zdigits2] in Hcan.
      rewrite Hcan, Z.eqb_refl, He3. reflexivity.
    + split; [reflexivity | right; left; reflexivity].
Qed.

(** The quotient and exponent that [SFdiv] hands to the rounding. *)
Lemma SFdiv_core_binary_spec mx ex my ey :
  exists q e' l,
    SFdiv_core_binary JS.prec JS.emax (Zpos mx) ex (Zpos my) ey = (q, e', l) /\
    0 <= ex - ey - e' /\
    (forall k, Zpos my * k <= Zpos mx * 2 ^ (ex - ey - e') -> k <= q) /\
    0 <= q /\
    e' <= fexp JS.prec JS.emax (Zdigits2 q + e').
Proof.
  unfold SFdiv_core_binary.
  set (d1 := Zdigits2 (Zpos mx)). set (d2 := Zdigits2 (Zpos my)).
  set (e' := Z.min (fexp JS.prec JS.emax (d1 + ex - (d2 + ey))) (ex - ey)).
  set (s := ex - ey - e').
  assert (Hs : 0 <= s) by (unfold s, e'; lia).
  set (m' := match s with Zpos _ => Z.shiftl (Zpos mx) s | 0 => Zpos mx | Zneg _ => 0 end).
  assert (Hm' : m' = Zpos mx * 2 ^ s).
  { unfold m'. destruct s as [|p|p] eqn:E; try lia.
    - rewrite Z.shiftl_mul_pow2 by lia. reflexivity. }
  pose proof (Z_div_mod m' (Zpos my) ltac:(lia)) as Hdm.
  unfold Z.div. destruct (Z.div_eucl m' (Zpos my)) as [q r] eqn:Hdiv.
  destruct Hdm as [Hdm Hr].
  assert (Hq : q = m' / Zpos my) by (unfold Z.div; rewrite Hdiv; reflexivity).
  exists q, e', (new_location (Zpos my) r). split; [reflexivity|].
  split; [exact Hs|]. split.
  { intros k Hk. rewrite Hq, Hm'. apply Z.div_le_lower_bound; [lia | exact Hk]. }
  pose proof (pow2_pos s Hs) as Hps.
  assert (Hq0 : 0 <= q).
  { rewrite Hq. apply Z.div_pos; [rewrite Hm'|]; lia. }
  split; [exact Hq0|].
  (* the quotient has at least [d1 - d2 + s] digits *)
  assert (HD : d1 - d2 + s <= Zdigits2 q).
  { destruct (Z_le_gt_dec (d1 - d2 + s) 0) as [|HDpos].
    - pose proof (Zdigits2_nonneg q). lia.
    - destruct (Zdigits2_bounds (Zpos mx) ltac:(lia)) as [Hl1 _].
      destruct (Zdigits2_bounds (Zpos my) ltac:(lia)) as [_ Hu2].
      fold d1 in Hl1. fold d2 in Hu2.
      pose proof (Zdigits2_pos (Zpos mx) ltac:(lia)) as Hd1. fold d1 in Hd1.
      pose proof (Zdigits2_pos (Zpos my) ltac:(lia)) as Hd2. fold d2 in Hd2.
      assert (Hlow : 2 ^ (d1 - d2 + s - 1) <= q).
      { rewrite Hq. apply Z.div_le_lower_bound; [lia|]. rewrite Hm'.
        assert (H1 : Zpos my * 2 ^ (d1 - d2 + s - 1) <= 2 ^ d2 * 2 ^ (d1 - d2 + s - 1)).
        { apply Z.mul_le_mono_nonneg_r; [|lia].
          pose proof (pow2_pos (d1 - d2 + s - 1) ltac:(lia)). lia. }
        rewrite <- Z.pow_add_r in H1 by lia.
        replace (d2 + (d1 - d2 + s - 1)) with ((d1 - 1) + s) in H1 by lia.
        rewrite Z.pow_add_r in H1 by lia.
        assert (H2 : 2 ^ (d1 - 1) * 2 ^ s <= Zpos mx * 2 ^ s).
        { apply Z.mul_le_mono_nonneg_r; lia. }
        lia. }
      pose proof (Zdigits2_ge q (d1 - d2 + s - 1) ltac:(lia) Hlow). lia. }
  transitivity (fexp JS.prec JS.emax (d1 + ex - (d2 + ey))); [unfold e'; lia|].
  apply fexp_mono. unfold s in HD. lia.
Qed.

(** A quotient of positive finite numbers is a well-formed number that is
    not negative. *)
Lemma SFdiv_positive_valid mx ex my ey :
  let a := SFdiv JS.prec JS.emax (S754_finite false mx ex) (S754_finite false my ey) in
  a = S754_zero false \/ a = S754_infinity false \/
  exists ma ea, a = S754_finite false ma ea /\ bounded JS.prec JS.emax ma ea = true.
Proof.
  intros a. unfold a, SFdiv.
  destruct (SFdiv_core_binary_spec mx ex my ey) as (q & e' & l & -> & _ & _ & Hq & Hpre).
  cbn [xorb].
  destruct (binary_round_aux_valid false q e' l Hq Hpre) as [Hv [H|[H|(p & k & H)]]].
  - left. exact H.
  - right. left. exact H.
  - right. right. exists p, k. split; [exact H|]. rewrite H in Hv. exact Hv.
Qed.

Lemma Pos_iter_xO_mul (p : positive) (n : positive) :
  Zpos (Pos.iter xO p n) = Zpos p * 2 ^ Zpos n.
Proof.
  revert p. induction n as [|n IH] using Pos.peano_ind; intros p.
  - cbn. lia.
  - rewrite Pos.iter_succ, Pos2Z.inj_xO, IH, Pos2Z.inj_succ, Z.pow_succ_r by lia. lia.
Qed.

(** A positive integer below [2^53] is a finite number. *)
Lemma of_Z_finite z :
  0 < z < 2 ^ 53 ->
  exists m e, JS.of_Z z = S754_finite false m e /\ bounded JS.prec JS.emax m e = true.
Proof.
  intros [Hpos Hlt]. destruct z as [|p|p]; try lia.
  unfold JS.of_Z, binary_normalize, binary_round.
  pose proof (Zdigits2_le (Zpos p) 53 ltac:(lia) ltac:(lia)) as Hd.
  pose proof (Zdigits2_pos (Zpos p) ltac:(lia)) as Hd0.
  cbn [Zdigits2] in Hd, Hd0. rewrite Z.add_0_r.
  set (d := Zpos (digits2_pos p)) in *.
  assert (Hfe : fexp JS.prec JS.emax d = d - 53) by (rewrite fexp_eq; lia).
  rewrite Hfe. unfold shl_align. rewrite Z.sub_0_r.
  assert (Hshape : exists mz ez,
             (match d - 53 with
              | Zneg k => (Pos.iter xO p k, d - 53)
              | _ => (p, 0)
              end) = (mz, ez) /\ ez = d - 53 /\ Zdigits2 (Zpos mz) = 53).
  { destruct (d - 53) as [|k|k] eqn:E; try lia.
    - exists p, 0. repeat split. cbn [Zdigits2]. fold d. lia.
    - exists (Pos.iter xO p k), (Zneg k). repeat split.
      rewrite Pos_iter_xO_mul.
      destruct (digits2_pos_bounds p) as [Hl Hu]. fold d in Hl, Hu.
      apply Zdigits2_unique; [lia|]. replace 53 with (d + Zpos k) at 2 by lia.
      replace (53 - 1) with ((d - 1) + Zpos k) by lia.
      rewrite !Z.pow_add_r by lia. pose proof (pow2_pos (Zpos k) ltac:(lia)). nia. }
  destruct Hshape as (mz & ez & -> & Hez & Hdz).
  assert (Hpre : ez <= fexp JS.prec JS.emax (Zdigits2 (Zpos mz) + ez)).
  { rewrite Hdz, fexp_eq. lia. }
  destruct (binary_round_aux_spec false (Zpos mz) ez loc_Exact ltac:(lia) Hpre)
    as [[_ Hz] | (m3 & e3 & Hm3 & Hcan & Hcase & Hres)].
  - exfalso. rewrite Hdz in Hz. replace (fexp JS.prec JS.emax (53 + ez)) with ez in Hz by (rewrite fexp_eq; lia).
    rewrite Z.sub_diag, Z.pow_0_r, Z.div_1_r in Hz. lia.
  - rewrite Hres.
    assert (He3 : e3 <= 971).
    { rewrite Hdz in Hcase. replace (fexp JS.prec JS.emax (53 + ez)) with ez in Hcase by (rewrite fexp_eq; lia).
      lia. }
    change (JS.emax - JS.prec) with 971. rewrite (proj2 (Z.leb_le _ _) He3).
    destruct m3 as [|p3|p3]; try lia. cbn [Z.to_pos].
    exists p3, e3. split; [reflexivity|]. unfold bounded, canonical_mantissa.
    cbn [Zdigits2] in Hcan. rewrite Hcan, Z.eqb_refl.
    change (JS.emax - JS.prec) with 971. rewrite (proj2 (Z.leb_le _ _) He3). reflexivity.
Qed.

Lemma of_nat_finite (n : nat) :
  (0 < n < 2 ^ 32)%nat ->
  exists m e, JS.of_nat n = S754_finite false m e /\ bounded JS.prec JS.emax m e = true.
Proof.
  intros [H0 H1]. apply of_Z_finite. split; [lia|].
  apply Z.lt_trans with (2 ^ 32); [|reflexivity].
  change 2 with (Z.of_nat 2%nat). change 32 with (Z.of_nat 32%nat).
  rewrite <- Nat2Z.inj_pow. lia.
Qed.

Lemma SFltb_finite_inv m1 e1 m2 e2 :
  SFltb (S754_finite false m1 e1) (S754_finite false m2 e2) = true ->
  e1 < e2 \/ (e1 = e2 /\ Zpos m1 < Zpos m2).
Proof.
  unfold SFltb, SFcompare. destruct (Z.compare_spec e1 e2) as [Heq|Hlt|Hgt].
  - rewrite Pos.compare_cont_spec. destruct (m1 ?= m2)%positive eqn:E; try discriminate.
    intros _. right. split; [assumption|].
    apply Pos2Z.pos_lt_pos, Pos.compare_lt_iff. exact E.
  - intros _. left. assumption.
  - discriminate.
Qed.

Lemma SFltb_finite_false_inv m1 e1 m2 e2 :
  SFltb (S754_finite false m1 e1) (S754_finite false m2 e2) = false ->
  e2 < e1 \/ (e1 = e2 /\ Zpos m2 <= Zpos m1).
Proof.
  unfold SFltb, SFcompare. destruct (Z.compare_spec e1 e2) as [Heq|Hlt|Hgt].
  - rewrite Pos.compare_cont_spec. destruct (m1 ?= m2)%positive eqn:E; try discriminate.
    + intros _. right. split; [assumption|]. apply Pos.compare_eq in E. subst.
      apply Z.le_refl.
    + intros _. right. split; [assumption|]. apply Z.lt_le_incl.
      apply Pos2Z.pos_lt_pos, Pos.compare_gt_iff. exact E.
  - discriminate.
  - intros _. left. assumption.
Qed.

(** The mantissa of a well-formed number has at most 53 digits, and exactly
    53 above the smallest exponent. *)
Lemma bounded_mantissa m e :
  bounded JS.prec JS.emax m e = true ->
  Zpos m < 2 ^ 53 /\ (-1074 < e -> 2 ^ 52 <= Zpos m).
Proof.
  intros Hb. destruct (bounded_canonical _ _ Hb) as [Hcan _].
  rewrite fexp_eq in Hcan.
  destruct (digits2_pos_bounds m) as [Hl Hu].
  pose proof (Zdigits2_pos (Zpos m) ltac:(lia)) as Hd. cbn [Zdigits2] in Hd.
  split.
  - eapply Z.lt_le_trans; [exact Hu|]. apply Z.pow_le_mono_r; lia.
  - intros He. replace (Zpos (digits2_pos m)) with 53 in Hl by lia. exact Hl.
Qed.

(** The constants of [fitRect], as numbers. *)
Lemma STORY_WIDTH_number :
  JS.of_nat STORY_WIDTH = S754_finite false 4749890231992320 (-42).
Proof. vm_compute. reflexivity. Qed.

Lemma halfHeightN_number : halfHeightN = S754_finite false 8444249301319680 (-43).
Proof. vm_compute. reflexivity. Qed.

Lemma targetAspect_number : targetAspect = S754_finite false 5066549580791808 (-52).
Proof. vm_compute. reflexivity. Qed.

(** [960 * a >= 1080] for every number [a > 1.125]. *)
Lemma wider_fills_width a :
  JS.valid a = true ->
  (a >? targetAspect)%js = true ->
  (halfHeightN * a >=? JS.of_nat STORY_WIDTH)%js = true.
Proof.
  intros Hv Hgt. rewrite halfHeightN_number, STORY_WIDTH_number.
  rewrite targetAspect_number in Hgt. unfold JS.gt in Hgt. unfold JS.ge, JS.mul.
  destruct a as [s|s| |s ma ea]; try (destruct s; discriminate Hgt); try discriminate Hgt.
  - destruct s; [discriminate Hgt|]. reflexivity.
  - destruct s; [discriminate Hgt|].
    cbn [JS.valid valid_binary] in Hv. unfold JS.valid in Hv. cbn [valid_binary] in Hv.
    destruct (bounded_mantissa _ _ Hv) as [Hu Hnorm].
    apply SFltb_finite_inv in Hgt.
    cbn [SFmul xorb].
    apply binary_round_aux_lower_bound; [reflexivity | lia | |].
    + (* the product is long enough *)
      assert (Hprod : 2 ^ 52 <= Zpos (8444249301319680 * ma)).
      { rewrite Pos2Z.inj_mul. change (2 ^ 52) with 4503599627370496. lia. }
      pose proof (Zdigits2_ge _ 52 ltac:(lia) Hprod). rewrite fexp_eq. lia.
    + apply (Fle_scale (-95)); [lia | lia |].
      rewrite Pos2Z.inj_mul.
      replace (-43 + ea - -95) with (ea + 52) by lia.
      change (-42 - -95) with 53.
      assert (Hp : 1 <= 2 ^ (ea + 52)) by (pose proof (pow2_pos (ea + 52)); lia).
      destruct Hgt as [Hlt | [Heq Hm]].
      * specialize (Hnorm ltac:(lia)).
        assert (Hp2 : 2 <= 2 ^ (ea + 52)).
        { change 2 with (2 ^ 1) at 1. apply Z.pow_le_mono_r; lia. }
        change (2 ^ 53) with 9007199254740992. change (2 ^ 52) with 4503599627370496 in Hnorm.
        nia.
      * subst ea. change (2 ^ (-52 + 52)) with 1. change (2 ^ 53) with 9007199254740992. lia.
Qed.

(** [1080 / a >= 960] for every number [a] that is not above [1.125]. *)
Lemma taller_fills_height a :
  JS.valid a = true ->
  a = S754_zero false \/ (exists ma ea, a = S754_finite false ma ea) ->
  (a >? targetAspect)%js = false ->
  (JS.of_nat STORY_WIDTH / a >=? halfHeightN)%js = true.
Proof.
  intros Hv Hshape Hgt. rewrite halfHeightN_number, STORY_WIDTH_number.
  rewrite targetAspect_number in Hgt. unfold JS.gt in Hgt. unfold JS.ge, JS.div.
  destruct Hshape as [-> | (ma & ea & ->)]; [reflexivity|].
  unfold JS.valid in Hv. cbn [valid_binary] in Hv.
  destruct (bounded_mantissa _ _ Hv) as [Hu Hnorm].
  apply SFltb_finite_false_inv in Hgt.
  unfold SFdiv.
  destruct (SFdiv_core_binary_spec 4749890231992320 (-42) ma ea)
    as (q & e' & l & -> & Hs & Hq & Hq0 & Hpre).
  cbn [xorb].
  apply binary_round_aux_lower_bound; [reflexivity | exact Hq0 | exact Hpre |].
  assert (Hea : ea <= -52) by lia.
  destruct (Z_le_gt_dec e' (-43)) as [He'|He'].
  - apply (Fle_scale e'); [lia | lia |].
    rewrite Z.sub_diag, Z.pow_0_r, Z.mul_1_r. apply Hq.
    replace (-42 - ea - e') with ((-43 - e') + (1 - ea)) by lia.
    rewrite Z.pow_add_r by lia.
    pose proof (pow2_pos (-43 - e') ltac:(lia)) as Hp1.
    set (P := 2 ^ (1 - ea)) in *. set (Q := 2 ^ (-43 - e')) in *.
    assert (Hkey : Zpos ma * 8444249301319680 <= 4749890231992320 * P).
    { destruct Hgt as [Hlt | [Heq Hm]].
      - assert (Hp2 : 2 ^ 54 <= P) by (apply Z.pow_le_mono_r; lia).
        change (2 ^ 54) with 18014398509481984 in Hp2.
        change (2 ^ 53) with 9007199254740992 in Hu. lia.
      - unfold P. subst ea. change (2 ^ (1 - -52)) with 9007199254740992. lia. }
    replace (Zpos ma * (8444249301319680 * Q))
      with ((Zpos ma * 8444249301319680) * Q) by ring.
    replace (4749890231992320 * (Q * P))
      with ((4749890231992320 * P) * Q) by ring.
    apply Z.mul_le_mono_nonneg_r; [lia | exact Hkey].
  - apply (Fle_scale (-43)); [lia | lia |].
    rewrite Z.sub_diag, Z.pow_0_r, Z.mul_1_r.
    assert (Hdq : 53 <= Zdigits2 q) by (rewrite fexp_eq in Hpre; lia).
    assert (Hqpos : 0 < q).
    { destruct (Z.eq_dec q 0) as [->|]; [cbn in Hdq; lia | lia]. }
    destruct (Zdigits2_bounds q Hqpos) as [Hl _].
    pose proof (Z.pow_le_mono_r 2 52 (Zdigits2 q - 1) ltac:(lia) ltac:(lia)) as H52.
    assert (Hp2 : 2 <= 2 ^ (e' - -43)).
    { change 2 with (2 ^ 1) at 1. apply Z.pow_le_mono_r; lia. }
    change (2 ^ 52) with 4503599627370496 in H52.
    set (T := 2 ^ (e' - -43)) in *.
    assert (Hprod : 4503599627370496 * 2 <= q * T).
    { apply Z.mul_le_mono_nonneg; lia. }
    lia.
Qed.

(** C10.  For a video of positive width and height (unsigned 32-bit values)
    the rectangle computed for the top half has [drawWidth >= 1080] and
    [drawHeight >= 960] in binary64; when the video is wider than the target
    it is centred horizontally ([drawX = (1080 - drawWidth) / 2], [drawY = 0],
    [drawHeight = 960]), otherwise vertically
    ([drawY = (960 - drawHeight) / 2], [drawX = 0], [drawWidth = 1080]). *)
Theorem fitRect_covers_top_half (vw vh : nat) :
  0 < Z.of_nat vw < 2 ^ 32 -> 0 < Z.of_nat vh < 2 ^ 32 ->
  let r := fitRect vw vh in
  (drawWidth r >=? JS.of_nat STORY_WIDTH)%js = true /\
  (drawHeight r >=? halfHeightN)%js = true /\
  if (videoAspect vw vh >? targetAspect)%js
  then drawX r = ((JS.of_nat STORY_WIDTH - drawWidth r) / JS.of_Z 2)%js /\
       drawY r = JS.of_Z 0 /\ drawHeight r = halfHeightN
  else drawY r = ((halfHeightN - drawHeight r) / JS.of_Z 2)%js /\
       drawX r = JS.of_Z 0 /\ drawWidth r = JS.of_nat STORY_WIDTH.
Proof.
  intros Hvw Hvh r.
  destruct (of_Z_finite (Z.of_nat vw) ltac:(split; [lia|]; apply Z.lt_trans with (2 ^ 32); [lia|reflexivity]))
    as (mx & ex & Hx & _).
  destruct (of_Z_finite (Z.of_nat vh) ltac:(split; [lia|]; apply Z.lt_trans with (2 ^ 32); [lia|reflexivity]))
    as (my & ey & Hy & _).
  pose proof (SFdiv_positive_valid mx ex my ey) as Ha. cbv zeta in Ha.
  assert (Haeq : videoAspect vw vh = SFdiv JS.prec JS.emax (S754_finite false mx ex) (S754_finite false my ey)).
  { unfold videoAspect, JS.div, JS.of_nat. rewrite Hx, Hy. reflexivity. }
  rewrite <- Haeq in Ha. unfold r, fitRect.
  destruct (videoAspect vw vh >? targetAspect)%js eqn:Hgt; cbn [drawX drawY drawWidth drawHeight].
  - split; [|split; [vm_compute; reflexivity | repeat split]].
    apply wider_fills_width; [|exact Hgt].
    destruct Ha as [-> | [-> | (ma & ea & -> & Hb)]]; try reflexivity. exact Hb.
  - split; [vm_compute; reflexivity | split; [|repeat split]].
    apply taller_fills_height; [| |exact Hgt].
    + destruct Ha as [-> | [-> | (ma & ea & -> & Hb)]]; try reflexivity. exact Hb.
    + destruct Ha as [-> | [Hinf | (ma & ea & -> & Hb)]]; [left; reflexivity | | right; eauto].
      rewrite Hinf, targetAspect_number in Hgt. discriminate Hgt.
Qed.

Lemma fitRect_covers_witness :
  (0 < Z.of_nat 1280 < 2 ^ 32)%Z /\ (0 < Z.of_nat 720 < 2 ^ 32)%Z /\
  (drawWidth (fitRect 1280 720) >=? JS.of_nat STORY_WIDTH)%js = true /\
  (drawHeight (fitRect 1280 720) >=? halfHeightN)%js = true.
Proof.
  assert (H1 : (0 < Z.of_nat 1280 < 2 ^ 32)%Z) by (split; reflexivity).
  assert (H2 : (0 < Z.of_nat 720 < 2 ^ 32)%Z) by (split; reflexivity).
  split; [exact H1|]. split; [exact H2|].
  destruct (fitRect_covers_top_half 1280 720 H1 H2) as (Hw & Hh & _).
  split; [exact Hw | exact Hh].
Defined.

(* ===================================================================== *)
(** * Further properties: the transcoder, the handlers, the timer *)
(* ===================================================================== *)

Local Open Scope nat_scope.

(** ** The transcoder *)

Lemma bind_ok {A B} (m : FF A) (k : A -> FF B) ff a ff' :
  m ff = (Ok a, ff') -> bind m k ff = k a ff'.
Proof. intros H. unfold bind. rewrite H. reflexivity. Qed.

Lemma bind_throw {A B} (m : FF A) (k : A -> FF B) ff e ff' :
  m ff = (Throw e, ff') -> bind m k ff = (Throw e, ff').
Proof. intros H. unfold bind. rewrite H. reflexivity. Qed.

Lemma exec_ok T ff input output :
  files ff !! "input.webm" = Some input -> T input = Some output ->
  exec T ff = (Ok tt, {| files := <["output.mp4" := output]> (files ff) |}).
Proof. intros H1 H2. unfold exec. rewrite H1, H2. reflexivity. Qed.

Lemma exec_fails T ff input :
  files ff !! "input.webm" = Some input -> T input = None ->
  exec T ff = (Ok tt, ff).
Proof. intros H1 H2. unfold exec. rewrite H1, H2. reflexivity. Qed.

Lemma readFile_ok name ff data :
  files ff !! name = Some data -> readFile name ff = (Ok data, ff).
Proof. intros H. unfold readFile. rewrite H. reflexivity. Qed.

Lemma readFile_missing name ff :
  files ff !! name = None -> readFile name ff = (Throw "ErrnoError: FS error", ff).
Proof. intros H. unfold readFile. rewrite H. reflexivity. Qed.

Lemma deleteFile_ok name ff data :
  files ff !! name = Some data ->
  deleteFile name ff = (Ok tt, {| files := delete name (files ff) |}).
Proof. intros H. unfold deleteFile. rewrite H. reflexivity. Qed.

Lemma transcode_success T webmBlob ff output :
  T (blobBytes webmBlob) = Some output ->
  transcode T webmBlob ff =
    (Ok {| blobType := "video/mp4"; blobBytes := output |},
     {| files := delete "output.mp4"
                   (delete "input.webm"
                      (<["output.mp4" := output]>
                         (<["input.webm" := blobBytes webmBlob]> (files ff)))) |}).
Proof.
  intros HT. unfold transcode.
  erewrite bind_ok by reflexivity.
  erewrite bind_ok by (eapply exec_ok; [apply lookup_insert_eq | exact HT]).
  erewrite bind_ok by (apply readFile_ok; apply lookup_insert_eq).
  erewrite bind_ok
    by (eapply deleteFile_ok; cbn [files];
        rewrite lookup_insert_ne by discriminate; apply lookup_insert_eq).
  erewrite bind_ok
    by (eapply deleteFile_ok; cbn [files];
        rewrite lookup_delete_ne by discriminate; apply lookup_insert_eq).
  reflexivity.
Qed.

Lemma transcode_failure T webmBlob ff :
  T (blobBytes webmBlob) = None ->
  files ff !! "output.mp4" = None ->
  transcode T webmBlob ff =
    (Throw "ErrnoError: FS error",
     {| files := <["input.webm" := blobBytes webmBlob]> (files ff) |}).
Proof.
  intros HT Hstale. unfold transcode.
  erewrite bind_ok by reflexivity.
  erewrite bind_ok by (eapply exec_fails; [apply lookup_insert_eq | exact HT]).
  erewrite bind_throw; [reflexivity|].
  apply readFile_missing. cbn [files].
  rewrite lookup_insert_ne by discriminate. exact Hstale.
Qed.

(** X1.  A conversion that the transcoder completes returns the MP4 blob and
    cleans up: afterwards the instance holds neither [input.webm] nor
    [output.mp4], and every other file is as before. *)
Theorem convertToMp4_cleans_up T ffmpeg webmBlob output :
  T (blobBytes webmBlob) = Some output ->
  exists ffmpeg',
    convertToMp4 T (Some ffmpeg) webmBlob =
      (Ok {| blobType := "video/mp4"; blobBytes := output |}, Some ffmpeg') /\
    files ffmpeg' !! "input.webm" = None /\
    files ffmpeg' !! "output.mp4" = None /\
    forall name, name <> "input.webm" -> name <> "output.mp4" ->
                 files ffmpeg' !! name = files ffmpeg !! name.
Proof.
  intros HT. unfold convertToMp4. rewrite (transcode_success _ _ _ _ HT).
  eexists. split; [reflexivity|]. cbn [files]. split; [|split].
  - rewrite lookup_delete_ne by discriminate. apply lookup_delete_eq.
  - apply lookup_delete_eq.
  - intros name H1 H2. rewrite !lookup_delete_ne, !lookup_insert_ne by congruence.
    reflexivity.
Qed.

(** X2.  Without a loaded instance [convertToMp4] throws "FFmpeg not loaded";
    when the run of the transcoder fails it throws at [readFile], and the
    cleanup is skipped: [input.webm] stays in the instance, holding the
    recording. *)
Theorem convertToMp4_failure_skips_cleanup T ffmpeg webmBlob :
  convertToMp4 T None webmBlob = (Throw "FFmpeg not loaded", None) /\
  (T (blobBytes webmBlob) = None ->
   files ffmpeg !! "output.mp4" = None ->
   exists ffmpeg',
     convertToMp4 T (Some ffmpeg) webmBlob = (Throw "ErrnoError: FS error", Some ffmpeg') /\
     files ffmpeg' !! "input.webm" = Some (blobBytes webmBlob) /\
     files ffmpeg' !! "output.mp4" = None).
Proof.
  split; [reflexivity|]. intros HT Hstale. unfold convertToMp4.
  rewrite (transcode_failure _ _ _ HT Hstale). eexists. split; [reflexivity|].
  cbn [files]. split; [apply lookup_insert_eq|].
  rewrite lookup_insert_ne by discriminate. exact Hstale.
Qed.

(** ** Object URLs and chunks *)

Lemma createObjectURL_fresh (urls : gmap nat Blob) blob :
  urls !! (createObjectURL urls blob).1 = None.
Proof.
  unfold createObjectURL. cbn [fst]. apply not_elem_of_dom, is_fresh.
Qed.

Lemma showPreview_keeps_urls blob s u b :
  objectURLs s !! u = Some b -> objectURLs (showPreview blob s) !! u = Some b.
Proof.
  intros Hu. unfold showPreview.
  pose proof (createObjectURL_fresh (objectURLs (set_mp4BlobRef (Some blob) s)) blob) as Hf.
  unfold createObjectURL in *. cbn in *.
  rewrite lookup_insert_ne; [exact Hu|]. intros Heq. rewrite Heq in Hf. congruence.
Qed.

(** X3.  The stop handler never overwrites an object URL: every URL that named
    a blob before still names it afterwards. *)
Theorem onstop_keeps_object_urls B s u b :
  objectURLs s !! u = Some b -> objectURLs (onstop B s) !! u = Some b.
Proof.
  intros Hu. unfold onstop, onstop_settle.
  cbn [onstop_begin conversionOf set_conversionOf setConvertProgress setRecordingState
       ffmpegRef chunksRef].
  destruct (convertToMp4 _ _ _) as [[mp4|err] ff]; apply showPreview_keeps_urls; exact Hu.
Qed.

Lemma deliver_chunksRef chunks s :
  chunksRef (deliver chunks s)
  = chunksRef s ++ filter (fun d => 0 < blobSize d) chunks.
Proof.
  revert s. induction chunks as [|d l IH]; intros s; cbn [deliver foldl].
  - rewrite app_nil_r. reflexivity.
  - fold (deliver l (ondataavailable d s)). rewrite IH.
    unfold ondataavailable. case_decide as Hd.
    + rewrite filter_cons_True by exact Hd. cbn. rewrite <- app_assoc. reflexivity.
    + rewrite filter_cons_False by exact Hd. reflexivity.
Qed.

Lemma concat_nonempty_chunks (chunks : list Blob) :
  concat (map blobBytes (filter (fun d => 0 < blobSize d) chunks))
  = concat (map blobBytes chunks).
Proof.
  induction chunks as [|d l IH]; [reflexivity|].
  destruct (decide (0 < blobSize d)) as [Hd|Hd].
  - rewrite filter_cons_True by exact Hd. cbn. rewrite IH. reflexivity.
  - rewrite filter_cons_False by exact Hd. cbn. rewrite IH.
    unfold blobSize in Hd. destruct (blobBytes d); [reflexivity | cbn in Hd; lia].
Qed.

(** X4.  The WebM blob that the stop handler builds is the bytes of the
    chunks held before followed by the bytes of every chunk delivered since,
    in the order of delivery: dropping the empty chunks loses nothing. *)
Theorem recorded_blob_is_all_chunks chunks s :
  conversionOf (onstop_begin (deliver chunks s))
  = Some {| blobType := "video/webm";
            blobBytes := concat (map blobBytes (chunksRef s))
                         ++ concat (map blobBytes chunks) |}.
Proof.
  unfold onstop_begin. cbn [conversionOf set_conversionOf]. unfold newBlob.
  rewrite deliver_chunksRef, map_app, concat_app, concat_nonempty_chunks.
  reflexivity.
Qed.

(** X5.  [startRecording] does nothing at all without a canvas or a camera
    stream; with both it starts from an empty list of chunks, even where the
    recorder cannot be built. *)
Theorem startRecording_guard_and_chunks B s :
  match combinedCanvasRef s, streamRef s with
  | Some _, Some _ =>
      chunksRef (startRecording B s) = [] /\
      (supportsMimeType B vp9 = false ->
       recordingState (startRecording B s) = recordingState s /\
       mediaRecorderRef (startRecording B s) = mediaRecorderRef s)
  | _, _ => startRecording B s = s
  end.
Proof.
  unfold startRecording.
  destruct (combinedCanvasRef s), (streamRef s); try reflexivity.
  destruct (supportsMimeType B vp9); cbn; split; try reflexivity; try discriminate.
  intros _. split; reflexivity.
Qed.

(** ** The preview *)

Lemma showPreview_ready blob s : previewReady (showPreview blob s).
Proof.
  unfold previewReady, showPreview, createObjectURL. cbn.
  eexists _, blob. split; [reflexivity|]. split; [apply lookup_insert_eq | reflexivity].
Qed.

Lemma onstop_settle_ready B s :
  is_Some (conversionOf s) -> previewReady (onstop_settle B s).
Proof.
  intros [webm Hc]. unfold onstop_settle. rewrite Hc.
  destruct (convertToMp4 _ _ _) as [[mp4|err] ff]; apply showPreview_ready.
Qed.

Lemma previewReady_frame s s' :
  recordedVideoUrl s' = recordedVideoUrl s ->
  objectURLs s' = objectURLs s ->
  mp4BlobRef s' = mp4BlobRef s ->
  previewReady s -> previewReady s'.
Proof. unfold previewReady. intros -> -> ->. auto. Qed.

Lemma step_preview_ready B e s s' :
  (recordingState s = preview -> previewReady s) ->
  step B e s = Some s' ->
  recordingState s' = preview -> previewReady s'.
Proof.
  intros HP Hstep. destruct e as [b|data| | | |secs| |p|img|stream| |canvas];
    cbn [step] in Hstep.
  - destruct (clickable s b); [|discriminate]. injection Hstep as <-.
    destruct b; cbn [onClick].
    + unfold resetCamera. destruct (recordedVideoUrl s); cbn; discriminate.
    + unfold downloadVideo. destruct (recordedVideoUrl s), (mp4BlobRef s); cbn; exact HP.
    + unfold shareVideo. destruct (mp4BlobRef s) as [blob|] eqn:Hb; [|exact HP].
      assert (Hd : recordingState (downloadVideo B s) = preview ->
                   previewReady (downloadVideo B s)).
      { unfold downloadVideo. rewrite Hb. destruct (recordedVideoUrl s); cbn; exact HP. }
      destruct (share B) as [f|]; [|exact Hd].
      destruct (canShare B _); [|exact Hd].
      destruct (f _); cbn; intros Hs;
        (eapply previewReady_frame; [| | |exact (HP Hs)]; reflexivity).
    + cbn. exact HP.
    + unfold startRecording.
      destruct (combinedCanvasRef s); [|exact HP].
      destruct (streamRef s); [|exact HP].
      destruct (supportsMimeType B vp9); cbn; [discriminate|].
      intros Hs. eapply previewReady_frame; [| | |exact (HP Hs)]; reflexivity.
    + unfold stopRecording. destruct (mediaRecorderRef s) as [r|]; [|exact HP].
      destruct (recorderState r); [exact HP|]. cbn.
      intros Hs. eapply previewReady_frame; [| | |exact (HP Hs)]; reflexivity.
  - destruct (recorderBusy s); [|discriminate]. injection Hstep as <-.
    unfold ondataavailable. case_decide; [|exact HP]. cbn.
    intros Hs. eapply previewReady_frame; [| | |exact (HP Hs)]; reflexivity.
  - destruct (mediaRecorderRef s) as [r|]; [|discriminate].
    destruct (recorderState r); [discriminate|]. injection Hstep as <-. cbn.
    intros Hs. eapply previewReady_frame; [| | |exact (HP Hs)]; reflexivity.
  - destruct (mediaRecorderRef s) as [r|]; [|discriminate].
    destruct (stopQueued r); [|discriminate]. injection Hstep as <-. cbn. discriminate.
  - destruct (conversionOf s) as [webm|] eqn:Hc; [|discriminate]. injection Hstep as <-.
    intros _. apply onstop_settle_ready. rewrite Hc. eauto.
  - destruct (mediaRecorderRef s) as [r|]; [|discriminate].
    destruct (timerInterval r); [|discriminate]. injection Hstep as <-. cbn.
    intros Hs. eapply previewReady_frame; [| | |exact (HP Hs)]; reflexivity.
  - injection Hstep as <-. cbn.
    intros Hs. eapply previewReady_frame; [| | |exact (HP Hs)]; reflexivity.
  - injection Hstep as <-. cbn.
    intros Hs. eapply previewReady_frame; [| | |exact (HP Hs)]; reflexivity.
  - injection Hstep as <-. cbn.
    intros Hs. eapply previewReady_frame; [| | |exact (HP Hs)]; reflexivity.
  - injection Hstep as <-. cbn.
    intros Hs. eapply previewReady_frame; [| | |exact (HP Hs)]; reflexivity.
  - injection Hstep as <-. cbn.
    intros Hs. eapply previewReady_frame; [| | |exact (HP Hs)]; reflexivity.
  - injection Hstep as <-. cbn.
    intros Hs. eapply previewReady_frame; [| | |exact (HP Hs)]; reflexivity.
Qed.

Lemma reachable_preview_ready B s :
  reachable B s -> recordingState s = preview -> previewReady s.
Proof.
  induction 1 as [|s e s' _ IH Hstep]; [discriminate|].
  exact (step_preview_ready B e s s' IH Hstep).
Qed.

(** X6.  In every state the component reaches, the state 'preview' comes with
    a recorded-video URL that names the blob of [mp4BlobRef]: the preview
    screen is shown, and its download button clicks an anchor on that URL
    named [pixxel-uv-<now>.mp4]. *)
Theorem preview_has_its_video B s :
  reachable B s -> recordingState s = preview ->
  previewShown s = true /\
  exists url blob,
    recordedVideoUrl s = Some url /\
    objectURLs s !! url = Some blob /\
    mp4BlobRef s = Some blob /\
    effects (downloadVideo B s) = effects s ++ [AnchorClicked url (mp4Name B)].
Proof.
  intros Hr Hs. destruct (reachable_preview_ready B s Hr Hs) as (url & blob & Hu & Ho & Hb).
  split.
  - unfold previewShown. rewrite Hs, Hu.
    rewrite bool_decide_eq_true_2 by reflexivity.
    rewrite bool_decide_eq_true_2 by eauto. reflexivity.
  - exists url, blob. repeat split; try assumption.
    unfold downloadVideo. rewrite Hu, Hb. reflexivity.
Qed.

(** X7.  In every state the component reaches, a recorder that runs or whose
    stop event is still to come goes with the state 'recording', and a
    conversion that has not settled goes with 'converting'. *)
Theorem recorder_runs_only_while_recording B s :
  reachable B s ->
  (recorderBusy s = true -> recordingState s = recording) /\
  (is_Some (conversionOf s) -> recordingState s = converting).
Proof.
  intros Hr. destruct (reachable_Inv B s Hr) as [H1 H2 _]. split; assumption.
Qed.

(** X8.  [resetCamera] revokes the URL on screen and clears it, so that
    [downloadVideo] does nothing afterwards; it leaves [mp4BlobRef] as it
    is, so that [shareVideo] still finds the last recording. *)
Theorem resetCamera_revokes_url_keeps_blob B s :
  let s' := resetCamera s in
  recordingState s' = idle /\
  recordedVideoUrl s' = None /\
  (forall url, recordedVideoUrl s = Some url -> objectURLs s' !! url = None) /\
  mp4BlobRef s' = mp4BlobRef s /\
  downloadVideo B s' = s'.
Proof.
  unfold resetCamera, revokeObjectURL, downloadVideo.
  destruct (recordedVideoUrl s) as [u|] eqn:Hu; cbn; repeat split; try reflexivity.
  - intros url [= <-]. apply lookup_delete_eq.
  - intros url H. discriminate H.
Qed.


(** X10.  A second [stopRecording] does nothing: the first one leaves the
    recorder inactive.  Neither changes the recording state or the chunks;
    those change when the recorder's [stop] event fires. *)
Theorem stopRecording_twice_is_once s :
  stopRecording (stopRecording s) = stopRecording s /\
  recordingState (stopRecording s) = recordingState s /\
  chunksRef (stopRecording s) = chunksRef s.
Proof.
  unfold stopRecording.
  destruct (mediaRecorderRef s) as [r|] eqn:Hr.
  - destruct (recorderState r) eqn:Hs.
    + rewrite Hr, Hs. auto.
    + cbn [setRecordingTime set_mediaRecorderRef mediaRecorderRef recorderState
           recordingState chunksRef]. auto.
  - rewrite Hr. auto.
Qed.

(** ** More on the recorded stream *)



(** ** More on the compositor *)

Lemma drawTopHalf_sameCanvas R fm video c1 c2 :
  sameCanvas (drawTopHalf R fm video c1) (drawTopHalf R fm video c2).
Proof.
  unfold sameCanvas, drawTopHalf. destruct fm; ctx_cbn; repeat split; reflexivity.
Qed.

Lemma copyAndInvert_sameCanvas w half a b :
  sameCanvas a b ->
  match copyAndInvert w half a, copyAndInvert w half b with
  | Some a', Some b' => sameCanvas a' b'
  | None, None => True
  | _, _ => False
  end.
Proof.
  destruct a as [wa ha bma sta ska pa ca], b as [wb hb bmb stb skb pb cb].
  unfold sameCanvas. cbn [width height bitmap state stack path].
  intros (-> & -> & -> & -> & -> & ->).
  unfold copyAndInvert, getImageData. case_decide; [exact I|].
  cbn [mbind option_bind]. unfold sameCanvas. ctx_cbn. cbn [id_width id_height id_data].
  repeat split; reflexivity.
Qed.

Lemma sameCanvas_setShadowColor v a b :
  sameCanvas a b -> sameCanvas (setShadowColor v a) (setShadowColor v b).
Proof.
  unfold sameCanvas. intros (H1 & H2 & H3 & H4 & H5 & H6). ctx_cbn.
  rewrite H1, H2, H3, H4, H5, H6. repeat split; reflexivity.
Qed.

Lemma sameCanvas_setShadowBlur v a b :
  sameCanvas a b -> sameCanvas (setShadowBlur v a) (setShadowBlur v b).
Proof.
  unfold sameCanvas. intros (H1 & H2 & H3 & H4 & H5 & H6). ctx_cbn.
  rewrite H1, H2, H3, H4, H5, H6. repeat split; reflexivity.
Qed.

Lemma sameCanvas_setShadowOffsetX v a b :
  sameCanvas a b -> sameCanvas (setShadowOffsetX v a) (setShadowOffsetX v b).
Proof.
  unfold sameCanvas. intros (H1 & H2 & H3 & H4 & H5 & H6). ctx_cbn.
  rewrite H1, H2, H3, H4, H5, H6. repeat split; reflexivity.
Qed.

Lemma sameCanvas_setShadowOffsetY v a b :
  sameCanvas a b -> sameCanvas (setShadowOffsetY v a) (setShadowOffsetY v b).
Proof.
  unfold sameCanvas. intros (H1 & H2 & H3 & H4 & H5 & H6). ctx_cbn.
  rewrite H1, H2, H3, H4, H5, H6. repeat split; reflexivity.
Qed.

Lemma sameCanvas_paint R cmd a b :
  sameCanvas a b -> sameCanvas (paint R cmd a) (paint R cmd b).
Proof.
  unfold sameCanvas. intros (H1 & H2 & H3 & H4 & H5 & H6). ctx_cbn.
  rewrite H1, H2, H3, H4, H5, H6. repeat split; reflexivity.
Qed.

Lemma drawOverlay_sameCanvas R productImage a b :
  sameCanvas a b -> sameCanvas (drawOverlay R productImage a) (drawOverlay R productImage b).
Proof.
  intros H. destruct productImage as [img|]; cbn [drawOverlay]; [|exact H].
  cbv zeta. unfold drawImage.
  apply sameCanvas_setShadowOffsetY, sameCanvas_setShadowOffsetX,
    sameCanvas_setShadowBlur, sameCanvas_setShadowColor, sameCanvas_paint,
    sameCanvas_setShadowOffsetY, sameCanvas_setShadowOffsetX,
    sameCanvas_setShadowBlur, sameCanvas_setShadowColor.
  exact H.
Qed.

Lemma keepsFrame_compose f g : keepsFrame f -> keepsFrame g -> keepsFrame (fun c => g (f c)).
Proof.
  intros Hf Hg c. destruct (Hf c) as (H1 & H2 & H3), (Hg (f c)) as (G1 & G2 & G3).
  rewrite G1, G2, G3. auto.
Qed.

Lemma keepsFrame_setShadowColor v : keepsFrame (setShadowColor v).
Proof. intros c. ctx_cbn. auto. Qed.

Lemma keepsFrame_setShadowBlur v : keepsFrame (setShadowBlur v).
Proof. intros c. ctx_cbn. auto. Qed.

Lemma keepsFrame_setShadowOffsetX v : keepsFrame (setShadowOffsetX v).
Proof. intros c. ctx_cbn. auto. Qed.

Lemma keepsFrame_setShadowOffsetY v : keepsFrame (setShadowOffsetY v).
Proof. intros c. ctx_cbn. auto. Qed.

Lemma keepsFrame_paint R cmd : keepsFrame (paint R cmd).
Proof. intros c. ctx_cbn. auto. Qed.

Lemma drawOverlay_size R productImage c :
  width (drawOverlay R productImage c) = width c /\
  height (drawOverlay R productImage c) = height c /\
  stack (drawOverlay R productImage c) = stack c.
Proof.
  destruct productImage as [img|]; cbn [drawOverlay]; [|auto].
  cbv zeta. unfold drawImage.
  repeat match goal with
         | |- context [setShadowOffsetY ?v ?x] =>
             destruct (keepsFrame_setShadowOffsetY v x) as (-> & -> & ->)
         | |- context [setShadowOffsetX ?v ?x] =>
             destruct (keepsFrame_setShadowOffsetX v x) as (-> & -> & ->)
         | |- context [setShadowBlur ?v ?x] =>
             destruct (keepsFrame_setShadowBlur v x) as (-> & -> & ->)
         | |- context [setShadowColor ?v ?x] =>
             destruct (keepsFrame_setShadowColor v x) as (-> & -> & ->)
         | |- context [paint ?R ?cmd ?x] =>
             destruct (keepsFrame_paint R cmd x) as (-> & -> & ->)
         end.
  auto.
Qed.

(** X12.  A composited frame owes nothing to the canvas it started from:
    whatever the canvas held (size, pixels, drawing state, saved states),
    the frame leaves the same 1080 x 1920 pixels and the same state. *)
Theorem processFrame_forgets_previous_canvas R fm video productImage c1 c2 :
  readyState video = HAVE_ENOUGH_DATA ->
  exists r1 r2,
    processFrame R fm video productImage c1 = Some r1 /\
    processFrame R fm video productImage c2 = Some r2 /\
    width r1 = STORY_WIDTH /\ height r1 = STORY_HEIGHT /\
    sameCanvas r1 r2.
Proof.
  intros Hready.
  destruct (processFrame_composes R fm video productImage c1 Hready)
    as (m1 & Hrun1 & Hp1 & _).
  destruct (processFrame_composes R fm video productImage c2 Hready)
    as (m2 & Hrun2 & Hp2 & _).
  exists (drawOverlay R productImage m1), (drawOverlay R productImage m2).
  split; [exact Hp1|]. split; [exact Hp2|].
  pose proof (copyAndInvert_sameCanvas STORY_WIDTH halfHeight _ _
                (drawTopHalf_sameCanvas R fm video c1 c2)) as Hsame.
  rewrite Hrun1, Hrun2 in Hsame.
  destruct (drawTopHalf_canvas R fm video c1) as (Hw & Hh & Hwf & _).
  destruct (copyAndInvert_bytes STORY_WIDTH halfHeight _ Hwf Hw STORY_WIDTH_pos
              halfHeight_pos) as (m1' & Hrun1' & Hw1 & Hh1 & _).
  { rewrite Hh. unfold halfHeight, STORY_HEIGHT. lia. }
  rewrite Hrun1 in Hrun1'. injection Hrun1' as <-.
  destruct (drawOverlay_size R productImage m1) as (Hwo & Hho & _).
  split; [|split].
  - rewrite Hwo. exact Hw1.
  - rewrite Hho, Hh1. exact Hh.
  - apply drawOverlay_sameCanvas. exact Hsame.
Qed.

Lemma drawTopHalf_stack R fm video c :
  stack (drawTopHalf R fm video c) = [].
Proof. unfold drawTopHalf. destruct fm; ctx_cbn; reflexivity. Qed.

Lemma copyAndInvert_stack w half c c' :
  copyAndInvert w half c = Some c' -> stack c' = stack c.
Proof.
  unfold copyAndInvert, getImageData. case_decide; [discriminate|].
  cbn [mbind option_bind]. intros [= <-]. ctx_cbn. reflexivity.
Qed.

(** X13.  The clip and the mirroring end with STEP 1: the overlay is drawn
    under the identity transform and without a clip whatever the facing
    mode, and the frame leaves no saved state behind. *)
Theorem overlay_is_neither_mirrored_nor_clipped R fm video img c :
  readyState video = HAVE_ENOUGH_DATA ->
  exists c',
    processFrame R fm video (Some img) c = Some c' /\
    stack c' = [] /\
    forall st, CPaint (overlayDraw img) st ∈ callsOfFrame c c' ->
               transform st = [] /\ clipRegion st = [].
Proof.
  intros Hready.
  destruct (processFrame_composes R fm video (Some img) c Hready)
    as (m & Hrun & Hp & _).
  destruct (processFrame_calls R fm video (Some img) c Hready) as (c' & Hp' & Hcalls).
  exists c'. split; [exact Hp'|]. split.
  - rewrite Hp in Hp'. apply (inj Some) in Hp'. rewrite <- Hp'.
    rewrite (proj2 (proj2 (drawOverlay_size R (Some img) m))).
    rewrite (copyAndInvert_stack _ _ _ _ Hrun). apply drawTopHalf_stack.
  - intros st. rewrite (callsOfFrame_app _ _ _ Hcalls). unfold frameCalls.
    rewrite !elem_of_app. intros [H|[H|[H|H]]].
    + repeat (apply elem_of_cons in H as [H|H]; [discriminate H|]).
      apply elem_of_nil in H. contradiction.
    + destruct fm; cbn [mirrorCalls] in H.
      * repeat (apply elem_of_cons in H as [H|H]; [discriminate H|]).
        apply elem_of_nil in H. contradiction.
      * apply elem_of_nil in H. contradiction.
    + repeat (apply elem_of_cons in H as [H|H]; [discriminate H|]).
      apply elem_of_nil in H. contradiction.
    + cbn [overlayCalls] in H.
      do 4 (apply elem_of_cons in H as [H|H]; [discriminate H|]).
      apply elem_of_cons in H as [H|H].
      { apply (f_equal (fun k => match k with
                                 | CPaint _ s => s
                                 | _ => initialDrawState
                                 end)) in H.
        cbv beta iota in H. rewrite H. split; reflexivity. }
      do 4 (apply elem_of_cons in H as [H|H]; [discriminate H|]).
      apply elem_of_nil in H. contradiction.
Qed.

(** X14.  [processFrame] of the component never throws, whatever the video
    reports as its size; in the earlier revision a video that has enough
    data but no width, or a height below two, makes [getImageData] throw. *)
Theorem processFrame_never_throws_earlier_may R fm video productImage c :
  is_Some (processFrame R fm video productImage c) /\
  (readyState video = HAVE_ENOUGH_DATA ->
   videoWidth video = 0 \/ videoHeight video < 2 ->
   Earlier.processFrame R fm video productImage c = None).
Proof.
  split.
  - destruct (decide (readyState video = HAVE_ENOUGH_DATA)) as [Hready|Hnot].
    + destruct (processFrame_composes R fm video productImage c Hready)
        as (m & _ & Hp & _). rewrite Hp. eauto.
    + unfold processFrame. rewrite decide_False by exact Hnot. eauto.
  - intros Hready Hdeg. unfold Earlier.processFrame.
    rewrite decide_True by exact Hready. cbv zeta.
    rewrite copyAndInvert_throws; [reflexivity|].
    unfold Earlier.halfHeight. destruct Hdeg as [H|H]; [left; exact H | right].
    apply Nat.div_small. exact H.
Qed.

(** X15.  The filter keeps the length of the array and, on bytes, returns
    bytes. *)
Theorem invert_keeps_length_and_bytes (data : list Z) :
  length (invert data) = length data /\
  (bytes_ok data -> bytes_ok (invert data)).
Proof.
  split; [apply length_invert|]. intros Hok. apply Forall_lookup. intros k v.
  rewrite invert_lookup. unfold bytes_ok in Hok. rewrite Forall_lookup in Hok.
  case_decide.
  - apply Hok.
  - destruct (data !! k) as [x|]; [|discriminate]. intros [= <-]. apply inv8_is_byte.
Qed.

(** ** The timer *)

Lemma padStart_two_digits n :
  n < 100 -> padStart 2 "0" (pretty n) = twoDigits n.
Proof.
  intros Hn.
  assert (Hall : forallb (fun n => String.eqb (padStart 2 "0" (pretty n)) (twoDigits n))
                   (seq 0 100) = true) by (vm_compute; reflexivity).
  rewrite forallb_forall in Hall. apply String.eqb_eq, Hall, in_seq. lia.
Qed.

(** X16.  Below a hundred minutes [formatTime] shows [mm:ss]: two digits of
    minutes, a colon, two digits of seconds, zero-padded. *)
Theorem formatTime_mm_ss seconds :
  seconds / 60 < 100 ->
  formatTime seconds = twoDigits (seconds / 60) +:+ ":" +:+ twoDigits (seconds mod 60).
Proof.
  intros Hs. unfold formatTime. cbv zeta.
  rewrite (padStart_two_digits (seconds / 60)) by exact Hs.
  rewrite (padStart_two_digits (seconds mod 60)) by (pose proof (Nat.mod_upper_bound seconds 60); lia).
  reflexivity.
Qed.

Lemma formatTime_mm_ss_witness :
  65 / 60 < 100 /\ formatTime 65 = "01:05".
Proof.
  assert (H : 65 / 60 < 100) by (apply Nat.ltb_lt; reflexivity).
  split; [exact H|]. rewrite (formatTime_mm_ss 65 H). reflexivity.
Defined.

(** ** Sample sessions *)

Lemma run_reachable B es : forall s s',
  reachable B s -> run B es s = Some s' -> reachable B s'.
Proof.
  induction es as [|e es IH]; intros s s' Hr Hrun; cbn [run] in Hrun.
  - injection Hrun as <-. exact Hr.
  - destruct (step B e s) as [s1|] eqn:Hs; [|discriminate Hrun].
    cbn [mbind option_bind] in Hrun.
    apply (IH s1 s'); [|exact Hrun]. exact (reach_step B s e s1 Hr Hs).
Qed.

Lemma previewComponent_run :
  run sampleBrowser sessionEvents readyComponent = Some previewComponent.
Proof. vm_compute. reflexivity. Qed.

Lemma previewComponent_reachable : reachable sampleBrowser previewComponent.
Proof.
  exact (run_reachable _ _ _ _ readyComponent_reachable previewComponent_run).
Qed.

Lemma recordingComponent_reachable : reachable sampleBrowser recordingComponent.
Proof.
  exact (reach_step _ _ (Click BtnRecord) _ readyComponent_reachable eq_refl).
Qed.


Lemma convertToMp4_cleans_up_witness :
  copyTranscoder (blobBytes sampleBlob) = Some (blobBytes sampleBlob) /\
  exists ffmpeg',
    convertToMp4 copyTranscoder (Some emptyFFmpeg) sampleBlob
      = (Ok {| blobType := "video/mp4"; blobBytes := blobBytes sampleBlob |},
         Some ffmpeg') /\
    files ffmpeg' !! "input.webm" = None /\
    files ffmpeg' !! "output.mp4" = None.
Proof.
  split; [reflexivity|].
  destruct (convertToMp4_cleans_up copyTranscoder emptyFFmpeg sampleBlob
              (blobBytes sampleBlob) eq_refl) as (ff & Hrun & Hin & Hout & _).
  exists ff. split; [exact Hrun|]. split; [exact Hin | exact Hout].
Defined.

Lemma onstop_keeps_object_urls_witness :
  objectURLs previewComponent !! 0 = Some sampleBlob /\
  objectURLs (onstop sampleBrowser previewComponent) !! 0 = Some sampleBlob.
Proof.
  assert (H : objectURLs previewComponent !! 0 = Some sampleBlob)
    by (vm_compute; reflexivity).
  split; [exact H|].
  exact (onstop_keeps_object_urls sampleBrowser previewComponent 0 sampleBlob H).
Defined.

Lemma preview_has_its_video_witness :
  reachable sampleBrowser previewComponent /\
  recordingState previewComponent = preview /\
  previewShown previewComponent = true /\
  is_Some (mp4BlobRef previewComponent).
Proof.
  assert (H : recordingState previewComponent = preview) by (vm_compute; reflexivity).
  split; [exact previewComponent_reachable|]. split; [exact H|].
  destruct (preview_has_its_video sampleBrowser previewComponent
              previewComponent_reachable H) as (Hshown & url & blob & _ & _ & Hblob & _).
  split; [exact Hshown|]. exists blob. exact Hblob.
Defined.

Lemma recorder_runs_only_while_recording_witness :
  reachable sampleBrowser recordingComponent /\
  recorderBusy recordingComponent = true /\
  recordingState recordingComponent = recording.
Proof.
  split; [exact recordingComponent_reachable|]. split; [reflexivity|].
  exact (proj1 (recorder_runs_only_while_recording sampleBrowser recordingComponent
                  recordingComponent_reachable) eq_refl).
Defined.



Lemma processFrame_forgets_witness :
  readyState sampleVideo = HAVE_ENOUGH_DATA /\
  exists r1 r2,
    processFrame sampleRasteriser user sampleVideo None blankCanvas = Some r1 /\
    processFrame sampleRasteriser user sampleVideo None usedCanvas = Some r2 /\
    sameCanvas r1 r2.
Proof.
  split; [reflexivity|].
  destruct (processFrame_forgets_previous_canvas sampleRasteriser user sampleVideo None
              blankCanvas usedCanvas eq_refl) as (r1 & r2 & H1 & H2 & _ & _ & Hsame).
  exists r1, r2. split; [exact H1|]. split; [exact H2 | exact Hsame].
Defined.

Lemma overlay_unclipped_witness :
  readyState sampleVideo = HAVE_ENOUGH_DATA /\
  exists c',
    processFrame sampleRasteriser user sampleVideo (Some sampleImage) usedCanvas
      = Some c' /\
    stack c' = [].
Proof.
  split; [reflexivity|].
  destruct (overlay_is_neither_mirrored_nor_clipped sampleRasteriser user sampleVideo
              sampleImage usedCanvas eq_refl) as (c' & Hrun & Hst & _).
  exists c'. split; [exact Hrun | exact Hst].
Defined.
